(** * WiredTiger key-value engine binding and operation interrupt checks

    A shallow embedding of
    - [src/mongo/db/operation_context_impl.cpp]
      ([opShouldFail], [checkForInterrupt], [checkForInterruptNoAssert]) and
    - [src/mongo/db/storage/wiredtiger/wiredtiger_kv_engine.cpp]
      (the constructor's configuration string, [okToRename], [flushAllFiles],
      [syncSizeInfo], [getRecordStore], [dropRecordStore],
      [dropSortedDataInterface], [_drop], [dropAllQueued]);
    further on, of the construction of an operation context and its
    recovery-unit hand-over, of the engine's cache budget, index objects and
    [haveDropsQueued], and of [loadLastOpTime] and [dropAllTempCollections]
    of [src/mongo/db/repl/repl_coordinator_external_state_impl.cpp].

    C++ control flow that leaves a function other than by [return] is made
    explicit: a call either returns, throws, or terminates the process
    (a failed invariant). *)

From Stdlib Require Import ZArith.
From Stdlib Require Import Floats.SpecFloat.
From stdpp Require Import base tactics option list sorting gmap strings pretty.

Local Open Scope Z_scope.

(** ** Outcomes of a call *)

(** The members of [ErrorCodes::Error] that the modelled code mentions. *)
Inductive ErrorCode :=
| OK
| Interrupted
| ExceededTimeLimit
| InterruptedAtShutdown.

Record Status := mkStatus { code : ErrorCode; reason : string }.

Definition Status_OK : Status := mkStatus OK "".
Definition isOK (st : Status) : bool :=
  match code st with OK => true | _ => false end.

(** What a [throw] carries: [uasserted] throws a user exception with an error
    code and a message; the storage layer throws [WriteConflictException];
    anything else is another [std::exception]. *)
Inductive Exception :=
| UserException (c : ErrorCode) (msg : string)
| WriteConflictException
| StdException (what : string).

(** Why a process ends: a failed invariant on a non-zero engine return code,
    or a call through a null pointer. *)
Inductive Fatal :=
| InvariantWTFailed (rc : Z)
| NullPointer.

(** A call on a state [S] that computes an [A]: it returns, or throws and
    leaves a state behind, or the process terminates. *)
Inductive Result (S A : Type) :=
| Returned (a : A) (s : S)
| Thrown (e : Exception) (s : S)
| Terminated (why : Fatal).
Arguments Returned {S A} a s.
Arguments Thrown {S A} e s.
Arguments Terminated {S A} why.

Definition M (S A : Type) : Type := S -> Result S A.

Definition ret {S A} (a : A) : M S A := fun s => Returned a s.

Definition bind {S A B} (m : M S A) (k : A -> M S B) : M S B :=
  fun s =>
    match m s with
    | Returned a s' => k a s'
    | Thrown e s' => Thrown e s'
    | Terminated why => Terminated why
    end.

(** [try { m } catch (const WriteConflictException&) { }] *)
Definition catchWriteConflict {S} (m : M S unit) : M S unit :=
  fun s =>
    match m s with
    | Thrown WriteConflictException s' => Returned tt s'
    | r => r
    end.

Declare Scope cpp_scope.
Delimit Scope cpp_scope with cpp.
Notation "x <- m ;; k" := (bind m (fun x => k))
  (at level 100, m at next level, right associativity) : cpp_scope.
Notation "m ;;; k" := (bind m (fun _ => k))
  (at level 100, right associativity) : cpp_scope.

(** ** Operation context: cooperative interruption *)

Module OperationContext.

(** [CurOp]: the kill flag, whether the operation is nested, its number,
    and what [maxTimeHasExpired()] answers at the moment of the call (the
    deadline is real time and is read, not computed, here). *)
Record CurOp := mkCurOp {
  killPending : bool;
  maxTimeHasExpired : bool;
  parent : option Z;
  opNum : Z
}.

(** Modelled from the spec: [CurOp::kill] (curop.cpp is not among the
    sources) "marks the operation killed". *)
Definition kill (op : CurOp) : CurOp :=
  mkCurOp true (maxTimeHasExpired op) (parent op) (opNum op).

Record Client := mkClient {
  getConnectionId : Z;
  curop : CurOp;
  hasWrittenSinceCheckpoint : bool
}.

Record Locker := mkLocker { isWriteLocked : bool }.

(** The data of the [checkForInterruptFail] fail point; [chance] is a double
    and only enters through the comparison with the random draw. *)
Record FailPointInfo := mkFailPointInfo {
  conn : Z;
  allowNested : bool
}.

(** The process state a check reads and writes: the global environment's
    kill-all flag, the fail point ([None] when the block is not entered), and
    the operation context's client and locker. The generator of the fail
    point's draws is not part of it: what is drawn is an input of a check. *)
Record World := mkWorld {
  getKillAllOperations : bool;
  checkForInterruptFail : option FailPointInfo;
  getClient : Client;
  lockState : Locker
}.

(** [c->curop()->kill()] *)
Definition killCurOp (w : World) : World :=
  let c := getClient w in
  mkWorld (getKillAllOperations w) (checkForInterruptFail w)
          (mkClient (getConnectionId c) (kill (curop c))
                    (hasWrittenSinceCheckpoint c))
          (lockState w).

(** [nextAboveBound] is the outcome of [next > upperBound] for the value
    drawn from the pseudo-random generator by this call. *)
Definition opShouldFail (c : Client) (failPointInfo : FailPointInfo)
    (nextAboveBound : bool) : bool :=
  if negb (getConnectionId c =? conn failPointInfo) then false
  else if negb (allowNested failPointInfo) && bool_decide (parent (curop c) <> None)
  then false
  else if nextAboveBound then false
  else true.

(** [MONGO_FAIL_POINT_BLOCK(checkForInterruptFail, scopedFailPoint) { ... }] *)
Definition failPointBlock (nextAboveBound : bool) (w : World) : World :=
  match checkForInterruptFail w with
  | Some data =>
      if opShouldFail (getClient w) data nextAboveBound then killCurOp w else w
  | None => w
  end.

Definition checkForInterrupt (heedMutex : bool) (nextAboveBound : bool)
    : M World unit := fun w =>
  let c := getClient w in
  if heedMutex && isWriteLocked (lockState w) && hasWrittenSinceCheckpoint c
  then Returned tt w
  else if getKillAllOperations w
  then Thrown (UserException InterruptedAtShutdown "interrupted at shutdown") w
  else if maxTimeHasExpired (curop c)
  then Thrown (UserException ExceededTimeLimit "operation exceeded time limit")
              (killCurOp w)
  else
    let w' := failPointBlock nextAboveBound w in
    if killPending (curop (getClient w'))
    then Thrown (UserException Interrupted "operation was interrupted") w'
    else Returned tt w'.

Definition checkForInterruptNoAssert (nextAboveBound : bool)
    : M World Status := fun w =>
  let c := getClient w in
  if getKillAllOperations w
  then Returned (mkStatus Interrupted "interrupted at shutdown") w
  else if maxTimeHasExpired (curop c)
  then Returned (mkStatus Interrupted "exceeded time limit") (killCurOp w)
  else
    let w' := failPointBlock nextAboveBound w in
    if killPending (curop (getClient w'))
    then Returned (mkStatus Interrupted "interrupted") w'
    else Returned Status_OK w'.

(** The condition a call signals with, if it signals. *)
Definition signalled {A} (r : Result World A) : option ErrorCode :=
  match r with
  | Thrown (UserException c _) _ => Some c
  | _ => None
  end.

(** The condition a returned status reports, if it is not OK. *)
Definition reported (r : Result World Status) : option ErrorCode :=
  match r with
  | Returned st _ => if isOK st then None else Some (code st)
  | _ => None
  end.

Definition worldAfter {A} (r : Result World A) : option World :=
  match r with
  | Returned _ w | Thrown _ w => Some w
  | Terminated _ => None
  end.

Definition killed (w : World) : bool := killPending (curop (getClient w)).

(** The suppression test of [checkForInterrupt]. *)
Definition writeLockedAndDirty (w : World) : bool :=
  isWriteLocked (lockState w) && hasWrittenSinceCheckpoint (getClient w).

End OperationContext.


(** ** The key-value engine over WiredTiger *)

Module KVEngine.

(** [EBUSY] of [<errno.h>]. *)
Definition EBUSY : Z := 16.

(** The methods of [WT_SESSION] the engine calls, on the state [WT] of the
    open connection (sessions opened for the length of one call are part of
    it). Each answers a return code, 0 for success. A configuration argument
    is a C string or [NULL]. [storeInto] is the size storer's write of its
    entries to the table named by its second argument; it is a call into
    wiredtiger_size_storer.cpp, which is not among the sources, and may
    return, throw or terminate. *)
Class WiredTiger (WT : Type) := {
  drop : string -> option string -> WT -> Z * WT;
  checkpoint : option string -> WT -> Z * WT;
  begin_transaction : option string -> WT -> Z * WT;
  commit_transaction : option string -> WT -> Z * WT;
  storeInto : gmap string (Z * Z) -> string -> WT -> Result WT unit
}.

(** [invariantWTOK(rc)] (wiredtiger_util.h is not among the sources).
    Modelled from the spec: "any other failure is fatal (invariant
    violation)"; "unexpected engine return codes ... terminate the process". *)
Definition invariantWTOK {S} (rc : Z) : M S unit :=
  fun s => if rc =? 0 then Returned tt s else Terminated (InvariantWTFailed rc).

(** The lines [LOG(1)] writes in the modelled functions, with the values
    streamed into them. *)
Inductive LogLine :=
| LogFlushAllFiles
| LogDrop (uri : string) (res : Z)
| LogQueuedDrop (uri : string) (res : Z).

(** [WiredTigerSizeStorer]: uri to (numRecords, dataSize). *)
Abbreviation WiredTigerSizeStorer := (gmap string (Z * Z)).

(** Modelled from the spec: [WiredTigerSizeStorer::store] "updates the
    in-memory entry; does not immediately persist". *)
Definition store (uri : string) (numRecords dataSize : Z)
    (ss : WiredTigerSizeStorer) : WiredTigerSizeStorer :=
  <[uri := (numRecords, dataSize)]> ss.

(** [WiredTigerSessionCache]: the idle sessions of the pool, by handle. *)
Record WiredTigerSessionCache := mkSessionCache { _sessionPool : list Z }.

(** Modelled from the spec: [WiredTigerSessionCache::closeAll]
    (wiredtiger_session_cache.cpp is not among the sources) "force-closes
    every currently idle session". *)
Definition closeAll (sc : WiredTigerSessionCache) : WiredTigerSessionCache :=
  mkSessionCache [].

Record WiredTigerKVEngine (WT : Type) := mkKVEngine {
  _conn : WT;
  _durable : bool;
  _epoch : Z;
  _sessionCache : WiredTigerSessionCache;
  _sizeStorer : option WiredTigerSizeStorer;
  _sizeStorerUri : string;
  _identToDrop : gset string;
  _log : list LogLine
}.
Arguments mkKVEngine {WT}.
Arguments _conn {WT}.
Arguments _durable {WT}.
Arguments _epoch {WT}.
Arguments _sessionCache {WT}.
Arguments _sizeStorer {WT}.
Arguments _sizeStorerUri {WT}.
Arguments _identToDrop {WT}.
Arguments _log {WT}.

(** [CollectionOptions], the fields [getRecordStore] reads. *)
Record CollectionOptions := mkCollectionOptions {
  capped : bool;
  cappedSize : Z;
  cappedMaxDocs : Z
}.

(** What [new WiredTigerRecordStore(...)] is constructed with: namespace, uri,
    [isCapped], [cappedMaxSize], [cappedMaxDocs], whether a delete callback is
    passed and whether a size storer is. *)
Record WiredTigerRecordStore := mkRecordStore {
  rs_ns : string;
  rs_uri : string;
  _isCapped : bool;
  _cappedMaxSize : Z;
  _cappedMaxDocs : Z;
  _cappedDeleteCallback : bool;
  rs_sizeStorer : bool
}.

(** A [RecordStore] as [okToRename] reads it. *)
Record RecordStore := mkRS { numRecords : Z; dataSize : Z }.

Section Engine.
Context {WT : Type} `{!WiredTiger WT}.

(** The declaration of [_epoch] (wiredtiger_kv_engine.h) is not among the
    sources: [epochRange] is the number of values its integer type counts
    through from 0, and [_epoch++] wraps at it. *)
Variable epochRange : Z.

Abbreviation Engine := (WiredTigerKVEngine WT).

Definition set_conn (c : WT) (e : Engine) : Engine :=
  mkKVEngine c (_durable e) (_epoch e) (_sessionCache e) (_sizeStorer e)
             (_sizeStorerUri e) (_identToDrop e) (_log e).
Definition set_epoch (n : Z) (e : Engine) : Engine :=
  mkKVEngine (_conn e) (_durable e) n (_sessionCache e) (_sizeStorer e)
             (_sizeStorerUri e) (_identToDrop e) (_log e).
Definition set_sessionCache (sc : WiredTigerSessionCache) (e : Engine) : Engine :=
  mkKVEngine (_conn e) (_durable e) (_epoch e) sc (_sizeStorer e)
             (_sizeStorerUri e) (_identToDrop e) (_log e).
Definition set_sizeStorer (ss : option WiredTigerSizeStorer) (e : Engine) : Engine :=
  mkKVEngine (_conn e) (_durable e) (_epoch e) (_sessionCache e) ss
             (_sizeStorerUri e) (_identToDrop e) (_log e).
Definition set_identToDrop (X : gset string) (e : Engine) : Engine :=
  mkKVEngine (_conn e) (_durable e) (_epoch e) (_sessionCache e) (_sizeStorer e)
             (_sizeStorerUri e) X (_log e).
Definition LOG (l : LogLine) (e : Engine) : Engine :=
  mkKVEngine (_conn e) (_durable e) (_epoch e) (_sessionCache e) (_sizeStorer e)
             (_sizeStorerUri e) (_identToDrop e) (_log e ++ [l]).

(** A [WT_SESSION] call made by the engine on its connection. *)
Definition onConn (f : WT -> Z * WT) : M Engine Z :=
  fun e => let '(rc, c) := f (_conn e) in Returned rc (set_conn c e).

(** A call into the size storer that works on the connection. *)
Definition onSession (f : WT -> Result WT unit) : M Engine unit :=
  fun e =>
    match f (_conn e) with
    | Returned a c => Returned a (set_conn c e)
    | Thrown x c => Thrown x (set_conn c e)
    | Terminated why => Terminated why
    end.

Local Open Scope cpp_scope.

(** The string the constructor streams into [ss] and passes to
    [wiredtiger_open]. *)
Definition wiredtiger_open_config (cacheSizeGB : Z) (durable : bool)
    (extraOpenOptions : string) : string :=
  "create,"
  +:+ "cache_size=" +:+ pretty cacheSizeGB +:+ "G,"
  +:+ "session_max=20000,"
  +:+ "extensions=[local=(entry=index_collator_extension)],"
  +:+ "statistics=(all),"
  +:+ (if durable then "log=(enabled=true,archive=true,path=journal)," else "")
  +:+ "checkpoint=(wait=60,log_size=2GB),"
  +:+ extraOpenOptions.

(** The entries of the configuration string as the interface description
    lists them, for comparison with [wiredtiger_open_config]: "create,
    cache_size=<N>G, session_max=<N>, extensions=[...], statistics=(all),
    optionally log=(enabled=true,archive=true,path=journal) when durable,
    checkpoint=(wait=<seconds>,log_size=<bytes>)". *)
Definition openEntries (cacheSizeGB : Z) (durable : bool) : list string :=
  ["create";
   "cache_size=" +:+ pretty cacheSizeGB +:+ "G";
   "session_max=20000";
   "extensions=[local=(entry=index_collator_extension)]";
   "statistics=(all)"]
  ++ (if durable then ["log=(enabled=true,archive=true,path=journal)"] else [])
  ++ ["checkpoint=(wait=60,log_size=2GB)"].

Definition _uri (ident : string) : string := "table:" +:+ ident.

Definition syncSizeInfo : M Engine unit := fun e =>
  match _sizeStorer e with
  | None => Returned tt e
  | Some ss =>
      catchWriteConflict
        (rc <- onConn (begin_transaction (Some "sync=true")) ;;
         invariantWTOK rc ;;;
         onSession (storeInto ss (_sizeStorerUri e)) ;;;
         rc' <- onConn (commit_transaction None) ;;
         invariantWTOK rc') e
  end.

Definition okToRename (fromNS toNS ident : string)
    (originalRecordStore : RecordStore) : M Engine Status := fun e =>
  match _sizeStorer e with
  | None => Terminated NullPointer
  | Some ss =>
      (syncSizeInfo ;;; ret Status_OK)
        (set_sizeStorer
           (Some (store (_uri ident) (numRecords originalRecordStore)
                        (dataSize originalRecordStore) ss)) e)
  end.

Definition flushAllFiles (sync : bool) : M Engine Z := fun e =>
  (syncSizeInfo ;;;
   rc <- onConn (checkpoint None) ;;
   invariantWTOK rc ;;;
   ret 1) (LOG LogFlushAllFiles e).

Definition getRecordStore (ns ident : string) (options : CollectionOptions)
    (e : Engine) : WiredTigerRecordStore :=
  if capped options then
    mkRecordStore ns (_uri ident) (capped options)
      (if negb (cappedSize options =? 0) then cappedSize options else 4096)
      (if negb (cappedMaxDocs options =? 0) then cappedMaxDocs options else -1)
      false
      (bool_decide (is_Some (_sizeStorer e)))
  else
    mkRecordStore ns (_uri ident) false (-1) (-1) false
      (bool_decide (is_Some (_sizeStorer e))).

Definition _drop (ident : string) : M Engine bool :=
  let uri := _uri ident in
  ret_ <- onConn (drop uri (Some "force")) ;;
  fun e =>
    let e := LOG (LogDrop uri ret_) e in
    if ret_ =? 0 then Returned true e
    else if ret_ =? EBUSY then
      let e := set_identToDrop ({[uri]} ∪ _identToDrop e) e in
      let e := set_epoch ((_epoch e + 1) `mod` epochRange) e in
      Returned false (set_sessionCache (closeAll (_sessionCache e)) e)
    else (invariantWTOK ret_ ;;; ret false) e.

Definition dropRecordStore (ident : string) : M Engine Status :=
  _drop ident ;;; ret Status_OK.

Definition dropSortedDataInterface (ident : string) : M Engine Status :=
  _drop ident ;;; ret Status_OK.

(** The order in which a [std::set<std::string>] is walked from [begin()] to
    [end()]: ascending. *)
Definition inOrder (X : gset string) : list string :=
  merge_sort String.le (elements X).

(** The first loop of [dropAllQueued], over what is left of [mine]. *)
Fixpoint dropQueued (mine : list string) (deleted : gset string)
    : M Engine (gset string) :=
  match mine with
  | [] => ret deleted
  | uri :: rest =>
      ret_ <- onConn (drop uri (Some "force")) ;;
      fun e =>
        let e := LOG (LogQueuedDrop uri ret_) e in
        if ret_ =? 0 then dropQueued rest ({[uri]} ∪ deleted) e
        else if ret_ =? EBUSY then dropQueued rest deleted e
        else (invariantWTOK ret_ ;;; dropQueued rest deleted) e
  end.

(** The second loop: [_identToDrop.erase( *it )] for each deleted name. *)
Definition eraseAll (deleted : list string) (X : gset string) : gset string :=
  fold_left (fun X uri => X ∖ {[uri]}) deleted X.

Definition dropAllQueued : M Engine unit := fun e =>
  let mine := _identToDrop e in
  (deleted <- dropQueued (inOrder mine) ∅ ;;
   fun e => Returned tt
     (set_identToDrop (eraseAll (inOrder deleted) (_identToDrop e)) e)) e.

(** What the engine answers when a forced drop is issued on each name in
    turn: the names with their return codes, and the connection after. *)
Fixpoint forcedDrops (uris : list string) (c : WT) : list (string * Z) * WT :=
  match uris with
  | [] => ([], c)
  | uri :: rest =>
      let '(rc, c1) := drop uri (Some "force") c in
      let '(replies, c2) := forcedDrops rest c1 in
      ((uri, rc) :: replies, c2)
  end.

(** The names among the replies that were dropped. *)
Definition dropped (replies : list (string * Z)) : list string :=
  (filter (fun r => r.2 = 0) replies).*1.

(** A return code the drop paths take as expected. *)
Definition expected (rc : Z) : Prop := rc = 0 \/ rc = EBUSY.

(** The engine after its connection moved to [c] and [lines] were logged. *)
Definition afterCalls (c : WT) (lines : list LogLine) (e : Engine) : Engine :=
  mkKVEngine c (_durable e) (_epoch e) (_sessionCache e) (_sizeStorer e)
             (_sizeStorerUri e) (_identToDrop e) (_log e ++ lines).

End Engine.

End KVEngine.

(** ** Sample states *)

Module Samples.
Import OperationContext.

(** A top-level operation on connection 17 that holds a write lock and has
    written since the last checkpoint, while the process is shutting down,
    its deadline has passed and a kill is pending. *)
Definition dirtyWriter : World :=
  mkWorld true (Some (mkFailPointInfo 17 true))
          (mkClient 17 (mkCurOp true true None 3) true)
          (mkLocker true).

(** An idle reader at shutdown: no lock, nothing written, no deadline passed,
    no kill pending, fail point off. *)
Definition readerAtShutdown : World :=
  mkWorld true None (mkClient 17 (mkCurOp false false None 4) false)
          (mkLocker false).

(** A reader whose deadline has passed, nothing else set. *)
Definition readerPastDeadline : World :=
  mkWorld false None (mkClient 17 (mkCurOp false true None 5) false)
          (mkLocker false).

(** A connection for tests. A forced drop answers [EBUSY] for a table a
    cursor still holds, [WT_PANIC] for a broken one and 0 otherwise; the other
    session calls succeed; the size storer's write throws a write conflict
    when another flush is under way. *)
Record TestConn := mkTestConn {
  held : list string;
  broken : list string;
  flushUnderWay : bool
}.

Definition WT_PANIC : Z := -31804.

#[global] Instance testWiredTiger : KVEngine.WiredTiger TestConn := {|
  KVEngine.drop uri _ c :=
    if bool_decide (uri ∈ held c) then (KVEngine.EBUSY, c)
    else if bool_decide (uri ∈ broken c) then (WT_PANIC, c)
    else (0, c);
  KVEngine.checkpoint _ c := (0, c);
  KVEngine.begin_transaction _ c := (0, c);
  KVEngine.commit_transaction _ c := (0, c);
  KVEngine.storeInto _ _ c :=
    if flushUnderWay c then Thrown WriteConflictException c else Returned tt c
|}.

(** An engine on a test connection with one idle session, a size storer
    that knows one table, and the drops [queued]. *)
Definition testEngine (c : TestConn) (queued : list string)
    : KVEngine.WiredTigerKVEngine TestConn :=
  KVEngine.mkKVEngine c true 0 (KVEngine.mkSessionCache [1])
    (Some {[ "table:c1" := (10, 4096) ]}) "table:sizeStorer"
    (list_to_set queued) [].

(** Three drops are pending; a cursor still holds table b. *)
Definition queuedEngine : KVEngine.WiredTigerKVEngine TestConn :=
  testEngine (mkTestConn ["table:b"] [] false)
             ["table:b"; "table:a"; "table:z"].

(** Nothing is pending; a cursor still holds table b. *)
Definition busyEngine : KVEngine.WiredTigerKVEngine TestConn :=
  testEngine (mkTestConn ["table:b"] [] false) [].

(** Nothing is pending; another flush of the size storer is under way. *)
Definition conflictEngine : KVEngine.WiredTigerKVEngine TestConn :=
  testEngine (mkTestConn [] [] true) [].

End Samples.

(** ** Operation context: construction and the recovery unit *)

Module Construction.

(** The two lockers the constructor chooses between. *)
Inductive LockerKind :=
| MMAPV1LockerImpl
| LockerImpl_false.

Record LockerImpl := mkLockerImpl { lockerKind : LockerKind; lockerId : Z }.

Record StorageEngine := mkStorageEngine { isMmapV1 : bool }.

(** The calls a recovery unit is told about by its operation context. *)
Inductive Notice :=
| beingReleasedFromOperationContext
| beingSetOnOperationContext.

(** A recovery unit, by the handle the storage engine gave it and the
    notices it has received so far, oldest first. *)
Record RecoveryUnit := mkRecoveryUnit { unitId : Z; notices : list Notice }.

Definition notify (n : Notice) (u : RecoveryUnit) : RecoveryUnit :=
  mkRecoveryUnit (unitId u) (notices u ++ [n]).

Record OperationContextImpl := mkOperationContext {
  _client : Z;
  _recovery : option RecoveryUnit;
  _locker : LockerImpl
}.

(** What a construction reads and writes: [currentClient.get()], the global
    storage engine, the handle its next [newRecoveryUnit] gives, and
    [idCounter], an [AtomicUInt64]. *)
Record Process := mkProcess {
  currentClient : option Z;
  getGlobalStorageEngine : option StorageEngine;
  nextUnit : Z;
  idCounter : Z
}.

(** [idCounter.addAndFetch(1)]: the counter steps by one on 64 bits and the
    new value is the result. *)
Definition addAndFetch1 (counter : Z) : Z := (counter + 1) `mod` 2 ^ 64.

(** [OperationContextImpl::OperationContextImpl()]; [None] is a failed
    [invariant]. The registration with the global environment keeps no state
    that the modelled functions read. *)
Definition construct (p : Process) : option (OperationContextImpl * Process) :=
  match currentClient p with
  | None => None
  | Some client =>
      match getGlobalStorageEngine p with
      | None => None
      | Some storageEngine =>
          let recovery := mkRecoveryUnit (nextUnit p) [] in
          let id := addAndFetch1 (idCounter p) in
          let locker :=
            if isMmapV1 storageEngine then mkLockerImpl MMAPV1LockerImpl id
            else mkLockerImpl LockerImpl_false id in
          Some (mkOperationContext client (Some recovery) locker,
                mkProcess (currentClient p) (getGlobalStorageEngine p)
                          (nextUnit p + 1) id)
      end
  end.

(** [n] constructions, one after the other. *)
Fixpoint constructMany (n : nat) (p : Process)
    : option (list OperationContextImpl * Process) :=
  match n with
  | O => Some ([], p)
  | S n' =>
      match construct p with
      | None => None
      | Some (ctx, p1) =>
          match constructMany n' p1 with
          | None => None
          | Some (ctxs, p2) => Some (ctx :: ctxs, p2)
          end
      end
  end.

(** [releaseRecoveryUnit]: the unit, if there is one, is told that it is
    being released and is handed out; the context keeps none. *)
Definition releaseRecoveryUnit (ctx : OperationContextImpl)
    : option RecoveryUnit * OperationContextImpl :=
  (notify beingReleasedFromOperationContext <$> _recovery ctx,
   mkOperationContext (_client ctx) None (_locker ctx)).

(** [setRecoveryUnit(unit)]: the context takes [unit] (or [NULL]) in place of
    what it held, and a unit is told that it is being set. *)
Definition setRecoveryUnit (unit : option RecoveryUnit)
    (ctx : OperationContextImpl) : OperationContextImpl :=
  mkOperationContext (_client ctx)
                     (notify beingSetOnOperationContext <$> unit)
                     (_locker ctx).

Definition recoveryUnit (ctx : OperationContextImpl) : option RecoveryUnit :=
  _recovery ctx.

End Construction.

(** ** The engine: start-up budget, maintenance and indexes *)

Module KVEngineMore.
Import KVEngine.

(** The constructor's cache budget. The sizes are doubles: whether
    [pageSize > 0] and [numPages > 0] hold, and the int that
    [static_cast<int>( cacheBytes / ( 1024 * 1024 * 1024 ) )] yields, are
    taken as they come; the rest is the constructor's own integer code. *)
Definition cacheSizeGB (pageSizePositive numPagesPositive : bool)
    (castGB : Z) : Z :=
  let cacheSizeGB := 1 in
  if pageSizePositive && numPagesPositive then
    let cacheSizeGB := castGB in
    if cacheSizeGB <? 1 then 1 else cacheSizeGB
  else cacheSizeGB.

(** [IndexDescriptor], as [getSortedDataInterface] reads it. *)
Record IndexDescriptor := mkIndexDescriptor { desc_unique : bool }.

(** The two index classes of wiredtiger_index.h, on the uri they are
    constructed with. *)
Inductive SortedDataInterface :=
| WiredTigerIndexUnique (uri : string)
| WiredTigerIndexStandard (uri : string).

(** [virtual bool unique() const] of the two classes. *)
Definition unique (i : SortedDataInterface) : bool :=
  match i with
  | WiredTigerIndexUnique _ => true
  | WiredTigerIndexStandard _ => false
  end.

Definition getSortedDataInterface (ident : string) (desc : IndexDescriptor)
    : SortedDataInterface :=
  if desc_unique desc then WiredTigerIndexUnique (_uri ident)
  else WiredTigerIndexStandard (_uri ident).

(** [getDirection] of an index cursor. *)
Definition getDirection (_forward : bool) : Z := if _forward then 1 else -1.

(** [ElapsedTracker] (elapsed_tracker is not among the sources): its state,
    together with the clock it reads, and its two calls. *)
Class ElapsedTracker (T : Type) := {
  intervalHasElapsed : T -> bool * T;
  resetLastTime : T -> T
}.

Section Maintenance.
Context {WT : Type} `{!WiredTiger WT}.

Local Open Scope cpp_scope.



Definition supportsDocLocking : bool := true.

(** What the engine keeps in memory besides its connection and its log. *)
Definition memory (e : WiredTigerKVEngine WT)
    : Z * WiredTigerSessionCache * option WiredTigerSizeStorer
      * string * gset string * bool :=
  (_epoch e, _sessionCache e, _sizeStorer e, _sizeStorerUri e, _identToDrop e,
   _durable e).

End Maintenance.

End KVEngineMore.

(** ** The cache budget in double precision *)

Module CacheBudget.

(** A C++ [double] is an IEEE 754 binary64 number: 53 bits of precision and
    exponents below 1024. [numPages * pageSize] and the two divisions round
    to nearest, ties to even. *)
Definition dmul : spec_float -> spec_float -> spec_float := SFmul 53 1024.
Definition ddiv : spec_float -> spec_float -> spec_float := SFdiv 53 1024.

(** The conversion of an int operand to double; it is exact for the
    constants of the constructor. *)
Definition double_of_int (z : Z) : spec_float :=
  binary_normalize 53 1024 z 0 false.

(** [x > y] on doubles: false when either is a NaN. *)
Definition dgt (x y : spec_float) : bool := SFltb y x.

(** The int constants of lines 99-102 as doubles:
    [0], [10] and [1024 * 1024 * 1024]. *)
Definition zero : spec_float := S754_zero false.
Definition ten : spec_float := Eval vm_compute in double_of_int 10.
Definition gib : spec_float :=
  Eval vm_compute in double_of_int (1024 * 1024 * 1024).

Definition INT_MAX : Z := 2 ^ 31 - 1.

(** [static_cast<int>]: the fractional part is discarded; the conversion is
    undefined ([None]) when the truncated value is not an int, and for
    infinities and NaNs. *)
Definition static_cast_int (x : spec_float) : option Z :=
  match x with
  | S754_zero _ => Some 0
  | S754_finite s m e =>
      let t := Z.shiftl (Zpos m) e in
      let v := if s then - t else t in
      if (- 2 ^ 31 <=? v) && (v <=? INT_MAX) then Some v else None
  | _ => None
  end.

(** Lines 89 and 99-105 of the constructor, on the two doubles read from the
    system details. *)
Definition cacheSizeGB (pageSize numPages : spec_float) : option Z :=
  if dgt pageSize zero && dgt numPages zero then
    let totalBytes := dmul numPages pageSize in
    let cacheBytes := ddiv totalBytes ten in
    match static_cast_int (ddiv cacheBytes gib) with
    | Some cacheSizeGB => Some (if cacheSizeGB <? 1 then 1 else cacheSizeGB)
    | None => None
    end
  else Some 1.

(** The whole GiB in a tenth of [m * 2 ^ e] bytes, in exact arithmetic:
    the integer part of [m * 2 ^ e / (10 * 2 ^ 30)]. *)
Definition wholeGiBTenth (m e : Z) : Z :=
  if 0 <=? e then (m * 2 ^ e) / (10 * 2 ^ 30)
  else m / (10 * 2 ^ 30 * 2 ^ (- e)).

(** The budget as the specification words it: 10% of the exact product
    pageSize * numPages in whole GiB, truncated, with a floor of 1 GiB; 1 GiB
    when a size is not a positive number. *)
Definition claimedBudget (pageSize numPages : spec_float) : Z :=
  match pageSize, numPages with
  | S754_finite false mp ep, S754_finite false mn en =>
      Z.max 1 (wholeGiBTenth (Zpos mp * Zpos mn) (ep + en))
  | _, _ => 1
  end.

End CacheBudget.

(** ** Replication's view of the local database *)

Module Repl.

(** The members of [BSONType] the modelled code tells apart; any other type
    by its number. *)
Inductive BSONType :=
| EOO
| Timestamp
| OtherType (number : Z).

(** A field's value: a timestamp with its [OpTime] (seconds, increment), or
    a value of another type. *)
Inductive BSONValue :=
| TimestampValue (secs inc : Z)
| OtherValue (number : Z).

(** A document: its fields in order. *)
Definition BSONObj := list (string * BSONValue).

(** A [BSONElement]: a field of a document, or the end-of-object element
    that a lookup of a missing name gives. *)
Definition BSONElement := option (string * BSONValue).

(** [obj[name]]: the first field of that name. *)
Fixpoint getField (obj : BSONObj) (name : string) : BSONElement :=
  match obj with
  | [] => None
  | (n, v) :: rest =>
      if bool_decide (n = name) then Some (n, v) else getField rest name
  end.

Definition eoo (e : BSONElement) : bool :=
  match e with None => true | Some _ => false end.

Definition type (e : BSONElement) : BSONType :=
  match e with
  | None => EOO
  | Some (_, TimestampValue _ _) => Timestamp
  | Some (_, OtherValue number) => OtherType number
  end.

(** [_opTime()] of an element; it is called on timestamps only. *)
Definition _opTime (e : BSONElement) : Z * Z :=
  match e with
  | Some (_, TimestampValue secs inc) => (secs, inc)
  | _ => (0, 0)
  end.

(** The codes of [ErrorCodes::Error] the file returns by name; a
    [DBException] brings a status of its own. *)
Inductive Error :=
| NoMatchingDocument (reason : string)
| NoSuchKey (reason : string)
| TypeMismatch (reason : string)
| FromException (status : Status).

(** [StatusWith<T>] *)
Definition StatusWith (T : Type) : Type := Error + T.

(** How a helper that reads the local database ends: with a document, with
    none, or by throwing. *)
Inductive Fetched :=
| Got (obj : BSONObj)
| Nothing
| ThrowsDBException (status : Status)
| ThrowsOther (what : string).

Definition tsFieldName : string := "ts".

Section Names.
(** [rsoplog] (oplog.cpp) and [typeName] (bsontypes) are not among the
    sources. *)
Variable rsoplog : string.
Variable typeName : BSONType -> string.

Definition quote : string := String (Ascii.ascii_of_nat 34) "".

(** [loadLastOpTime], on what [Helpers::getLast(txn, rsoplog, oplogEntry)]
    does. [inr what] is an exception that leaves the function. *)
Definition loadLastOpTime (getLast : Fetched)
    : StatusWith (Z * Z) + string :=
  match getLast with
  | ThrowsDBException status => inl (inl (FromException status))
  | ThrowsOther what => inr what
  | Nothing =>
      inl (inl (NoMatchingDocument ("Did not find any entries in " +:+ rsoplog)))
  | Got oplogEntry =>
      let tsElement := getField oplogEntry tsFieldName in
      if eoo tsElement then
        inl (inl (NoSuchKey ("Most recent entry in " +:+ rsoplog +:+ " missing "
                             +:+ quote +:+ tsFieldName +:+ quote +:+ " field")))
      else if match type tsElement with Timestamp => false | _ => true end then
        inl (inl (TypeMismatch
                    ("Expected type of " +:+ quote +:+ tsFieldName +:+ quote
                     +:+ " in most recent " +:+ rsoplog
                     +:+ " entry to have type Timestamp, but found "
                     +:+ typeName (type tsElement))))
      else inl (inr (_opTime tsElement))
  end.

End Names.

(** [dropAllTempCollections]: [dbNames] is what [listDatabases] fills in,
    [get] is [dbHolder().get(txn, name)], a database handle or [NULL]. The
    result is the handles [clearTmpCollections] was called on, in order, or
    [None] when [invariant(db)] fails. *)
Fixpoint dropAllTempCollections (dbNames : list string)
    (get : string -> option Z) : option (list Z) :=
  match dbNames with
  | [] => Some []
  | name :: rest =>
      if bool_decide (name = "local") then dropAllTempCollections rest get
      else
        match get name with
        | None => None
        | Some db => cons db <$> dropAllTempCollections rest get
        end
  end.

End Repl.

(** ** More sample states *)

Module MoreSamples.
Import OperationContext.

(** The fail point is on for connection 17; a healthy top-level operation
    runs on connection 18. *)
Definition onOtherConnection : World :=
  mkWorld false (Some (mkFailPointInfo 17 true))
          (mkClient 18 (mkCurOp false false None 6) false)
          (mkLocker false).

(** The fail point is on for connection 17, nested operations included; a
    healthy nested operation runs on that connection. *)
Definition onTargetedConnection : World :=
  mkWorld false (Some (mkFailPointInfo 17 true))
          (mkClient 17 (mkCurOp false false (Some 6) 7) false)
          (mkLocker false).

(** A killed reader: nothing else is set. *)
Definition killedReader : World :=
  mkWorld false None (mkClient 17 (mkCurOp true false None 8) false)
          (mkLocker false).

(** A process with a current client, a storage engine that is not MMAPv1,
    and a counter one step before the end of its 64 bits. *)
Definition lateProcess : Construction.Process :=
  Construction.mkProcess (Some 17) (Some (Construction.mkStorageEngine false))
                         0 (2 ^ 64 - 2).

(** An operation context holding recovery unit 5, which was told nothing yet. *)
Definition freshContext : Construction.OperationContextImpl :=
  Construction.mkOperationContext 17
    (Some (Construction.mkRecoveryUnit 5 []))
    (Construction.mkLockerImpl Construction.LockerImpl_false 1).

(** An oplog entry with two [ts] fields, the first a timestamp. *)
Definition oplogEntry : Repl.BSONObj :=
  [("h", Repl.OtherValue 18); ("ts", Repl.TimestampValue 1417000000 3);
   ("ts", Repl.OtherValue 2)].

(** A tracker that counts the calls and reports every third one; resetting
    starts the count again. *)
#[global] Instance everyThirdCall : KVEngineMore.ElapsedTracker Z := {|
  KVEngineMore.intervalHasElapsed pings := (3 <=? pings + 1, pings + 1);
  KVEngineMore.resetLastTime _ := 0
|}.

(** Which databases are open, by handle. *)
Definition openDatabases (name : string) : option Z :=
  if bool_decide (name = "local") then Some 1
  else if bool_decide (name = "test") then Some 2
  else if bool_decide (name = "admin") then Some 3
  else None.

End MoreSamples.

(** ** Interrupt checks: facts *)

Module InterruptFacts.
Import OperationContext.

Lemma killCurOp_killed w : killed (killCurOp w) = true.
Proof. reflexivity. Qed.

(** The fail point leaves the world as it is or marks the operation killed. *)
Lemma failPointBlock_cases nextAboveBound w :
  failPointBlock nextAboveBound w = w \/
  failPointBlock nextAboveBound w = killCurOp w.
Proof.
  unfold failPointBlock.
  destruct (checkForInterruptFail w) as [data|]; [|by left].
  destruct (opShouldFail (getClient w) data nextAboveBound); [by right|by left].
Qed.

(** A kill that was pending stays pending through the fail point. *)
Lemma failPointBlock_keeps_kill nextAboveBound w :
  killed w = true -> killed (failPointBlock nextAboveBound w) = true.
Proof.
  intros Hk. destruct (failPointBlock_cases nextAboveBound w) as [-> | ->];
    [exact Hk | apply killCurOp_killed].
Qed.

(** C2. [checkForInterrupt] first tests the suppression (heedMutex, write
    lock held, written since the last checkpoint) and then returns with the
    world untouched, whatever the shutdown flag, the deadline and the kill
    flag are. Otherwise it tests, in this order: the kill-all flag (throws
    InterruptedAtShutdown, world untouched), the deadline (marks the operation
    killed and throws ExceededTimeLimit), the fail point (which can only mark
    the operation killed), and the pending kill (throws Interrupted);
    with none of them it returns. *)
Theorem checkForInterrupt_order heedMutex nextAboveBound w :
  (heedMutex && writeLockedAndDirty w = true ->
     checkForInterrupt heedMutex nextAboveBound w = Returned tt w) /\
  (heedMutex && writeLockedAndDirty w = false ->
     (getKillAllOperations w = true ->
        checkForInterrupt heedMutex nextAboveBound w =
        Thrown (UserException InterruptedAtShutdown "interrupted at shutdown") w) /\
     (getKillAllOperations w = false ->
        (maxTimeHasExpired (curop (getClient w)) = true ->
           checkForInterrupt heedMutex nextAboveBound w =
           Thrown (UserException ExceededTimeLimit "operation exceeded time limit")
                  (killCurOp w)
           /\ killed (killCurOp w) = true) /\
        (maxTimeHasExpired (curop (getClient w)) = false ->
           let w' := failPointBlock nextAboveBound w in
           (w' = w \/ w' = killCurOp w) /\
           (killed w' = true ->
              checkForInterrupt heedMutex nextAboveBound w =
              Thrown (UserException Interrupted "operation was interrupted") w') /\
           (killed w' = false ->
              checkForInterrupt heedMutex nextAboveBound w = Returned tt w')))).
Proof.
  unfold checkForInterrupt, writeLockedAndDirty, killed.
  rewrite andb_assoc.
  destruct (heedMutex && isWriteLocked (lockState w)
            && hasWrittenSinceCheckpoint (getClient w)) eqn:Hs.
  { split; [done | intros; discriminate]. }
  split; [intros; discriminate | intros _].
  destruct (getKillAllOperations w).
  { split; [done | intros; discriminate]. }
  split; [intros; discriminate | intros _].
  destruct (maxTimeHasExpired (curop (getClient w))).
  { split; [done | intros; discriminate]. }
  split; [intros; discriminate | intros _]. cbv zeta.
  split; [apply failPointBlock_cases|].
  destruct (killPending (curop (getClient (failPointBlock nextAboveBound w))));
    split; intros; done.
Qed.

(** At [Samples.dirtyWriter] everything calls for an interrupt, and the
    check returns. *)
Lemma checkForInterrupt_order_witness :
  checkForInterrupt true false Samples.dirtyWriter
  = Returned tt Samples.dirtyWriter.
Proof.
  apply (proj1 (checkForInterrupt_order true false Samples.dirtyWriter)).
  reflexivity.
Defined.

(** Without the suppression the two variants agree on when they fail ... *)
Lemma checkForInterruptNoAssert_fails_iff nextAboveBound w :
  is_Some (reported (checkForInterruptNoAssert nextAboveBound w)) <->
  is_Some (signalled (checkForInterrupt false nextAboveBound w)).
Proof.
  unfold checkForInterruptNoAssert, checkForInterrupt. simpl.
  destruct (getKillAllOperations w); [by split; eauto|].
  destruct (maxTimeHasExpired (curop (getClient w))); [by split; eauto|].
  destruct (killPending (curop (getClient (failPointBlock nextAboveBound w))));
    simpl; [by split; eauto|].
  split; intros [? ?]; discriminate.
Qed.

(** ... and on the world they leave behind. *)
Lemma checkForInterruptNoAssert_same_world nextAboveBound w :
  worldAfter (checkForInterruptNoAssert nextAboveBound w) =
  worldAfter (checkForInterrupt false nextAboveBound w).
Proof.
  unfold checkForInterruptNoAssert, checkForInterrupt. simpl.
  destruct (getKillAllOperations w); [done|].
  destruct (maxTimeHasExpired (curop (getClient w))); [done|].
  by destruct (killPending (curop (getClient (failPointBlock nextAboveBound w)))).
Qed.

(** Every failure of the non-throwing variant carries the code Interrupted. *)
Lemma checkForInterruptNoAssert_code nextAboveBound w c :
  reported (checkForInterruptNoAssert nextAboveBound w) = Some c ->
  c = Interrupted.
Proof.
  unfold checkForInterruptNoAssert.
  destruct (getKillAllOperations w); [by intros [= <-]|].
  destruct (maxTimeHasExpired (curop (getClient w))); [by intros [= <-]|].
  cbv zeta.
  destruct (killPending (curop (getClient (failPointBlock nextAboveBound w))));
    simpl; [by intros [= <-] | discriminate].
Qed.

(** C4. At shutdown [checkForInterrupt] signals InterruptedAtShutdown where
    [checkForInterruptNoAssert] reports Interrupted, and past the deadline it
    signals ExceededTimeLimit where the variant again reports Interrupted:
    the variant does not keep the condition. *)
Theorem checkForInterruptNoAssert_loses_condition :
  signalled (checkForInterrupt false false Samples.readerAtShutdown)
    = Some InterruptedAtShutdown /\
  reported (checkForInterruptNoAssert false Samples.readerAtShutdown)
    = Some Interrupted /\
  signalled (checkForInterrupt false false Samples.readerPastDeadline)
    = Some ExceededTimeLimit /\
  reported (checkForInterruptNoAssert false Samples.readerPastDeadline)
    = Some Interrupted.
Proof. repeat split. Qed.

End InterruptFacts.

(** ** The engine: facts *)

Module EngineFacts.
Import KVEngine.

Section Facts.
Context {WT : Type} `{!WiredTiger WT}.
Implicit Types (e : WiredTigerKVEngine WT) (X deleted : gset string).
Implicit Types (replies pre post : list (string * Z)) (mine : list string).

Lemma EBUSY_nonzero : EBUSY <> 0.
Proof. discriminate. Qed.

(** *** Walking and erasing a set of names *)

Lemma inOrder_Permutation X : inOrder X ≡ₚ elements X.
Proof. apply merge_sort_Permutation. Qed.

Lemma elem_of_inOrder X uri : uri ∈ inOrder X <-> uri ∈ X.
Proof. by rewrite inOrder_Permutation, elem_of_elements. Qed.

Lemma NoDup_inOrder X : NoDup (inOrder X).
Proof. rewrite inOrder_Permutation. apply NoDup_elements. Qed.

Lemma inOrder_sorted X : Sorted String.le (inOrder X).
Proof. apply (Sorted_merge_sort _). Qed.

Lemma eraseAll_difference names X :
  eraseAll names X = X ∖ list_to_set names.
Proof.
  unfold eraseAll. revert X.
  induction names as [|uri names IH]; intros X; simpl.
  - rewrite difference_empty_L. done.
  - rewrite IH. apply set_eq. intros u.
    rewrite !elem_of_difference, elem_of_union, elem_of_singleton. tauto.
Qed.

Lemma eraseAll_inOrder deleted X : eraseAll (inOrder deleted) X = X ∖ deleted.
Proof.
  rewrite eraseAll_difference. apply set_eq. intros uri.
  rewrite !elem_of_difference, elem_of_list_to_set, elem_of_inOrder. done.
Qed.

(** *** The replies of the engine *)

Lemma forcedDrops_names mine (c : WT) : (forcedDrops mine c).1.*1 = mine.
Proof.
  revert c. induction mine as [|uri rest IH]; intros c; simpl; [done|].
  destruct (drop uri (Some "force") c) as [rc c1].
  specialize (IH c1). destruct (forcedDrops rest c1) as [replies c2].
  simpl in *. by f_equal.
Qed.

Lemma elem_of_dropped replies uri :
  uri ∈ dropped replies <-> (uri, 0) ∈ replies.
Proof.
  unfold dropped. rewrite list_elem_of_fmap. split.
  - intros [[u rc] [-> [Hrc Hin]%list_elem_of_filter]]. simpl in *. by subst.
  - intros Hin. exists (uri, 0). split; [done|].
    apply list_elem_of_filter. done.
Qed.

(** A name that was tried once has one reply. *)
Lemma reply_unique replies uri rc rc' :
  NoDup replies.*1 -> (uri, rc) ∈ replies -> (uri, rc') ∈ replies -> rc = rc'.
Proof.
  induction replies as [|[u r] replies IH]; simpl; intros Hnd H1 H2.
  - by apply elem_of_nil in H1.
  - apply NoDup_cons in Hnd as [Hnotin Hnd].
    apply elem_of_cons in H1 as [E1|H1]; apply elem_of_cons in H2 as [E2|H2];
      simplify_eq.
    + done.
    + exfalso. apply Hnotin. apply list_elem_of_fmap. by exists (u, rc').
    + exfalso. apply Hnotin. apply list_elem_of_fmap. by exists (u, rc).
    + by apply IH.
Qed.

Lemma dropped_cons_zero uri replies :
  dropped ((uri, 0) :: replies) = uri :: dropped replies.
Proof. unfold dropped. by rewrite filter_cons_True. Qed.

Lemma dropped_cons_nonzero uri rc replies :
  rc <> 0 -> dropped ((uri, rc) :: replies) = dropped replies.
Proof. intros Hrc. unfold dropped. by rewrite filter_cons_False. Qed.

(** *** The engine record after calls *)

Lemma afterCalls_nil e : afterCalls (_conn e) [] e = e.
Proof. destruct e. unfold afterCalls. simpl. by rewrite app_nil_r. Qed.

Lemma afterCalls_LOG (c1 c2 : WT) line lines e :
  afterCalls c2 lines (LOG line (set_conn c1 e)) = afterCalls c2 (line :: lines) e.
Proof. unfold afterCalls, LOG, set_conn. simpl. by rewrite <- app_assoc. Qed.

(** *** The first loop of [dropAllQueued] *)

(** When every reply is 0 or [EBUSY] the loop runs to its end: it has logged
    each call, moved the connection along, and collected the dropped names. *)
Lemma dropQueued_returns mine deleted e :
  Forall (fun r => expected r.2) (forcedDrops mine (_conn e)).1 ->
  dropQueued mine deleted e =
  Returned (list_to_set (dropped (forcedDrops mine (_conn e)).1) ∪ deleted)
           (afterCalls (forcedDrops mine (_conn e)).2
              (uncurry LogQueuedDrop <$> (forcedDrops mine (_conn e)).1) e).
Proof.
  revert deleted e. induction mine as [|uri rest IH]; intros deleted e Hall.
  { simpl. rewrite afterCalls_nil.
    unfold ret, dropped. simpl. by rewrite (left_id_L ∅ (∪)). }
  simpl in *. unfold bind, onConn.
  destruct (drop uri (Some "force") (_conn e)) as [rc c1].
  specialize (IH) with (e := LOG (LogQueuedDrop uri rc) (set_conn c1 e)).
  simpl in IH.
  destruct (forcedDrops rest c1) as [replies c2]. simpl in *.
  apply Forall_cons in Hall as [Hrc Hall]. unfold expected in Hrc. simpl in Hrc.
  destruct (Z.eqb_spec rc 0) as [-> | Hnz].
  - rewrite IH by done. rewrite afterCalls_LOG, dropped_cons_zero. simpl.
    f_equal. apply set_eq. intros u.
    rewrite !elem_of_union, elem_of_singleton. tauto.
  - destruct Hrc as [? | ->]; [done|]. simpl.
    rewrite IH by done. rewrite afterCalls_LOG, dropped_cons_nonzero by done.
    done.
Qed.

(** When the replies so far were 0 or [EBUSY] and the next one is neither,
    the invariant on it fails and the process ends. *)
Lemma dropQueued_terminates mine deleted e pre uri rc post (c : WT) :
  forcedDrops mine (_conn e) = (pre ++ (uri, rc) :: post, c) ->
  Forall (fun r => expected r.2) pre ->
  ~ expected rc ->
  dropQueued mine deleted e = Terminated (InvariantWTFailed rc).
Proof.
  revert mine deleted e.
  induction pre as [|[u r] pre IH]; intros mine deleted e Hf Hpre Hrc.
  - destruct mine as [|uri' rest]; simpl in Hf; [discriminate|].
    simpl. unfold bind, onConn.
    destruct (drop uri' (Some "force") (_conn e)) as [rc' c1].
    destruct (forcedDrops rest c1) as [replies c2]. simplify_eq/=.
    destruct (Z.eqb_spec rc 0) as [-> | Hnz]; [by destruct Hrc; left|].
    destruct (Z.eqb_spec rc EBUSY) as [-> | Hnb]; [by destruct Hrc; right|].
    unfold invariantWTOK. by destruct (Z.eqb_spec rc 0).
  - destruct mine as [|uri' rest]; simpl in Hf; [discriminate|].
    simpl. unfold bind, onConn.
    destruct (drop uri' (Some "force") (_conn e)) as [rc' c1].
    destruct (forcedDrops rest c1) as [replies c2] eqn:Hrest. simplify_eq/=.
    apply Forall_cons in Hpre as [Hr Hpre]. unfold expected in Hr. simpl in Hr.
    destruct (Z.eqb_spec r 0) as [-> | Hnz].
    + eapply IH; [|done..]. simpl. exact Hrest.
    + destruct Hr as [? | ->]; [done|]. simpl.
      eapply IH; [|done..]. simpl. exact Hrest.
Qed.

(** C3. One run of [dropAllQueued] issues a forced drop on every pending
    name, once each, in the order of the set (the log has one line per call,
    with the engine's reply). When every reply is 0 or [EBUSY] the run
    returns, and the names left pending are exactly the pending names whose
    drop did not answer 0, which are exactly those that answered [EBUSY];
    the first reply that is neither ends the process on a failed invariant. *)
Theorem dropAllQueued_retries e replies (c : WT) :
  forcedDrops (inOrder (_identToDrop e)) (_conn e) = (replies, c) ->
  (replies.*1 = inOrder (_identToDrop e) /\ NoDup replies.*1 /\
   forall uri, uri ∈ _identToDrop e <-> uri ∈ replies.*1) /\
  (Forall (fun r => expected r.2) replies ->
   exists e',
     dropAllQueued e = Returned tt e' /\
     e' = set_identToDrop (_identToDrop e ∖ list_to_set (dropped replies))
            (afterCalls c (uncurry LogQueuedDrop <$> replies) e) /\
     (forall uri, uri ∈ _identToDrop e' <->
                  uri ∈ _identToDrop e /\ (uri, 0) ∉ replies) /\
     (forall uri, uri ∈ _identToDrop e' <-> (uri, EBUSY) ∈ replies)) /\
  (forall pre uri rc post,
     replies = pre ++ (uri, rc) :: post ->
     Forall (fun r => expected r.2) pre ->
     ~ expected rc ->
     dropAllQueued e = Terminated (InvariantWTFailed rc)).
Proof.
  intros Hf.
  assert (Hnames : replies.*1 = inOrder (_identToDrop e)).
  { pose proof (forcedDrops_names (inOrder (_identToDrop e)) (_conn e)) as H.
    by rewrite Hf in H. }
  assert (Hnd : NoDup replies.*1) by (rewrite Hnames; apply NoDup_inOrder).
  assert (Hin : forall uri, uri ∈ _identToDrop e <-> uri ∈ replies.*1).
  { intros uri. by rewrite Hnames, elem_of_inOrder. }
  split; [done|]. split.
  - intros Hall. eexists. split.
    { unfold dropAllQueued, bind. rewrite dropQueued_returns; rewrite Hf; [|done].
      simpl. rewrite eraseAll_inOrder, (right_id_L ∅ (∪)). reflexivity. }
    split; [done|]. simpl.
    assert (Hleft : forall uri,
      uri ∈ _identToDrop e ∖ list_to_set (dropped replies) <->
      uri ∈ _identToDrop e /\ (uri, 0) ∉ replies).
    { intros uri.
      by rewrite elem_of_difference, elem_of_list_to_set, elem_of_dropped. }
    split; [done|]. intros uri. rewrite Hleft, Hin. split.
    + intros [[[u rc] [-> Hr]]%list_elem_of_fmap Hnz]. simpl in *.
      pose proof (proj1 (Forall_forall _ _) Hall _ Hr) as [Hrc | Hrc];
        simpl in Hrc; by subst.
    + intros Hb. split.
      * apply list_elem_of_fmap. by exists (uri, EBUSY).
      * intros Hz. by pose proof (reply_unique _ _ _ _ Hnd Hb Hz).
  - intros pre uri rc post -> Hpre Hrc.
    unfold dropAllQueued, bind.
    by erewrite dropQueued_terminates.
Qed.

(** *** Drops *)

(** C1. A forced drop that the engine answers with [EBUSY] makes
    [dropRecordStore] and [dropSortedDataInterface] add the uri to the
    pending set, step the epoch by one (wrapping at the range of its type),
    call [closeAll] on the session cache, which leaves no idle session, and
    return OK; a drop answered with 0 makes them
    return OK with the pending set, the epoch and the pool as they were. *)
Theorem drop_busy_is_queued epochRange ident e rc (c : WT) :
  drop (_uri ident) (Some "force") (_conn e) = (rc, c) ->
  (rc = EBUSY ->
   exists e',
     dropRecordStore epochRange ident e = Returned Status_OK e' /\
     dropSortedDataInterface epochRange ident e = Returned Status_OK e' /\
     _identToDrop e' = {[_uri ident]} ∪ _identToDrop e /\
     _uri ident ∈ _identToDrop e' /\
     _epoch e' = (_epoch e + 1) `mod` epochRange /\
     (0 <= _epoch e < epochRange - 1 -> _epoch e' = _epoch e + 1) /\
     _sessionCache e' = closeAll (_sessionCache e) /\
     _sessionPool (_sessionCache e') = [] /\
     _conn e' = c) /\
  (rc = 0 ->
   exists e',
     dropRecordStore epochRange ident e = Returned Status_OK e' /\
     dropSortedDataInterface epochRange ident e = Returned Status_OK e' /\
     _identToDrop e' = _identToDrop e /\
     _epoch e' = _epoch e /\
     _sessionCache e' = _sessionCache e /\
     _conn e' = c) /\
  isOK Status_OK = true.
Proof.
  intros Hd. split; [|split; [|done]].
  - intros ->. eexists.
    unfold dropRecordStore, dropSortedDataInterface, _drop, bind, onConn.
    rewrite Hd. simpl. split_and!; try reflexivity.
    + simpl. apply elem_of_union_l, elem_of_singleton. done.
    + simpl. intros Hrange. apply Z.mod_small. lia.
  - intros ->. eexists.
    unfold dropRecordStore, dropSortedDataInterface, _drop, bind, onConn.
    rewrite Hd. simpl. split_and!; reflexivity.
Qed.

(** Any other reply ends the process. *)
Lemma drop_unexpected_terminates epochRange ident e rc (c : WT) :
  drop (_uri ident) (Some "force") (_conn e) = (rc, c) ->
  ~ expected rc ->
  dropRecordStore epochRange ident e = Terminated (InvariantWTFailed rc) /\
  dropSortedDataInterface epochRange ident e = Terminated (InvariantWTFailed rc).
Proof.
  intros Hd Hrc.
  unfold dropRecordStore, dropSortedDataInterface, _drop, bind, onConn.
  rewrite Hd. simpl.
  destruct (Z.eqb_spec rc 0) as [-> | Hnz]; [by destruct Hrc; left|].
  destruct (Z.eqb_spec rc EBUSY) as [-> | Hnb]; [by destruct Hrc; right|].
  unfold invariantWTOK. by destruct (Z.eqb_spec rc 0).
Qed.

(** *** The size storer *)

Lemma syncSizeInfo_without_storer e :
  _sizeStorer e = None -> syncSizeInfo e = Returned tt e.
Proof. intros H. unfold syncSizeInfo. by rewrite H. Qed.

(** C5. Inside the transaction that [syncSizeInfo] has begun, a
    [WriteConflictException] from the write of the entries is caught and the
    call returns; any other exception leaves the call as it is, a fatal
    failure ends the process, and after a write that returned the commit's
    return code is put under the invariant. *)
Theorem syncSizeInfo_swallows_write_conflict e ss (c1 : WT) r :
  _sizeStorer e = Some ss ->
  begin_transaction (Some "sync=true") (_conn e) = (0, c1) ->
  storeInto ss (_sizeStorerUri e) c1 = r ->
  match r with
  | Thrown WriteConflictException c2 =>
      syncSizeInfo e = Returned tt (set_conn c2 e)
  | Thrown x c2 => syncSizeInfo e = Thrown x (set_conn c2 e)
  | Terminated why => syncSizeInfo e = Terminated why
  | Returned _ c2 =>
      syncSizeInfo e =
      (rc <- onConn (commit_transaction None) ;; invariantWTOK rc)%cpp
        (set_conn c2 e)
  end.
Proof.
  intros Hss Hb <-.
  unfold syncSizeInfo, catchWriteConflict, bind, onConn, onSession.
  rewrite Hss, Hb. simpl.
  destruct (storeInto ss (_sizeStorerUri e) c1) as [[] c2 | x c2 | why]; simpl.
  - destruct (commit_transaction None c2) as [rc c3]. unfold invariantWTOK.
    by destruct (rc =? 0).
  - by destruct x.
  - done.
Qed.

(** A transaction that cannot begin ends the process. *)
Lemma syncSizeInfo_begin_fails e ss rc (c1 : WT) :
  _sizeStorer e = Some ss ->
  begin_transaction (Some "sync=true") (_conn e) = (rc, c1) ->
  rc <> 0 ->
  syncSizeInfo e = Terminated (InvariantWTFailed rc).
Proof.
  intros Hss Hb Hrc.
  unfold syncSizeInfo, catchWriteConflict, bind, onConn.
  rewrite Hss, Hb. simpl. unfold invariantWTOK.
  by destruct (Z.eqb_spec rc 0).
Qed.

(** [syncSizeInfo] touches the connection only. *)
Lemma syncSizeInfo_frame e :
  match syncSizeInfo e with
  | Returned _ e' | Thrown _ e' => e' = set_conn (_conn e') e
  | Terminated _ => True
  end.
Proof.
  unfold syncSizeInfo, catchWriteConflict, bind, onConn, onSession.
  destruct (_sizeStorer e) as [ss|]; [|by destruct e].
  destruct (begin_transaction (Some "sync=true") (_conn e)) as [rc c1]. simpl.
  unfold invariantWTOK. destruct (rc =? 0); [|done]. simpl.
  destruct (storeInto ss (_sizeStorerUri e) c1) as [[] c2 | x c2 | why]; simpl.
  - destruct (commit_transaction None c2) as [rc' c3]. simpl.
    by destruct (rc' =? 0).
  - by destruct x.
  - done.
Qed.

(** C10. On a constructed engine [okToRename] puts the record store's
    [numRecords] and [dataSize] into the size storer under the ident's uri
    and then runs [syncSizeInfo] on the engine so updated; whenever it
    returns, the status is OK and the size storer holds that entry, and it
    returns once the transaction of the flush begins, writes and commits. *)
Theorem okToRename_stores_then_syncs fromNS toNS ident rs e ss :
  _sizeStorer e = Some ss ->
  let e1 :=
    set_sizeStorer
      (Some (<[_uri ident := (numRecords rs, dataSize rs)]> ss)) e in
  okToRename fromNS toNS ident rs e = (syncSizeInfo ;;; ret Status_OK)%cpp e1 /\
  (forall st e2,
     okToRename fromNS toNS ident rs e = Returned st e2 ->
     st = Status_OK /\
     exists ss2, _sizeStorer e2 = Some ss2 /\
                 ss2 !! _uri ident = Some (numRecords rs, dataSize rs)) /\
  (forall (c1 c2 c3 : WT),
     begin_transaction (Some "sync=true") (_conn e) = (0, c1) ->
     storeInto (<[_uri ident := (numRecords rs, dataSize rs)]> ss)
               (_sizeStorerUri e) c1 = Returned tt c2 ->
     commit_transaction None c2 = (0, c3) ->
     okToRename fromNS toNS ident rs e = Returned Status_OK (set_conn c3 e1)).
Proof.
  intros Hss e1.
  assert (Hrun : okToRename fromNS toNS ident rs e
                 = (syncSizeInfo ;;; ret Status_OK)%cpp e1).
  { unfold okToRename. by rewrite Hss. }
  split; [exact Hrun|]. split.
  - intros st e2. rewrite Hrun. unfold bind, ret.
    pose proof (syncSizeInfo_frame e1) as Hfr.
    destruct (syncSizeInfo e1) as [[] e' | x e' | why]; [|done..].
    intros [= <- <-]. split; [done|].
    eexists. rewrite Hfr. simpl. split; [reflexivity|].
    apply lookup_insert_eq.
  - intros c1 c2 c3 Hb Hs Hc. rewrite Hrun.
    unfold syncSizeInfo, catchWriteConflict, bind, ret, onConn, onSession.
    simpl. rewrite Hb. simpl. rewrite Hs. simpl. rewrite Hc. done.
Qed.

(** *** Flush *)

(** C8. [flushAllFiles] does not look at [sync]: for [true] and for [false]
    it logs, runs [syncSizeInfo], requests a checkpoint and puts its return
    code under the invariant; it returns 1 whenever it returns, and it
    returns when the size storer's flush returns and the checkpoint answers
    0. *)
Theorem flushAllFiles_ignores_sync e :
  flushAllFiles true e = flushAllFiles false e /\
  (forall sync,
     flushAllFiles sync e =
     (syncSizeInfo ;;;
      rc <- onConn (checkpoint None) ;;
      invariantWTOK rc ;;;
      ret 1)%cpp (LOG LogFlushAllFiles e)) /\
  (forall sync n e', flushAllFiles sync e = Returned n e' -> n = 1) /\
  (forall sync e1 (c : WT),
     syncSizeInfo (LOG LogFlushAllFiles e) = Returned tt e1 ->
     checkpoint None (_conn e1) = (0, c) ->
     flushAllFiles sync e = Returned 1 (set_conn c e1)).
Proof.
  split; [done|]. split; [done|]. split.
  - intros sync n e'. unfold flushAllFiles, bind, onConn, ret.
    destruct (syncSizeInfo (LOG LogFlushAllFiles e)) as [[] e1 | |]; [|done..].
    destruct (checkpoint None (_conn e1)) as [rc c]. unfold invariantWTOK.
    destruct (rc =? 0); [|done]. by intros [= <- _].
  - intros sync e1 c Hs Hc. unfold flushAllFiles, bind, onConn, ret.
    rewrite Hs, Hc. done.
Qed.

(** *** Record stores *)

(** C9. For capped options [getRecordStore] constructs a capped store whose
    maximum size is [cappedSize], or 4096 when that is 0, and whose maximum
    document count is [cappedMaxDocs], or -1 when that is 0; for options that
    are not capped it constructs an uncapped store with both limits -1. The
    store is bound to the ident's uri in both cases. *)
Theorem getRecordStore_limits ns ident options e :
  let rs := getRecordStore ns ident options e in
  rs_ns rs = ns /\ rs_uri rs = _uri ident /\
  (capped options = true ->
     _isCapped rs = true /\
     (cappedSize options = 0 -> _cappedMaxSize rs = 4096) /\
     (cappedSize options <> 0 -> _cappedMaxSize rs = cappedSize options) /\
     (cappedMaxDocs options = 0 -> _cappedMaxDocs rs = -1) /\
     (cappedMaxDocs options <> 0 -> _cappedMaxDocs rs = cappedMaxDocs options)) /\
  (capped options = false ->
     _isCapped rs = false /\ _cappedMaxSize rs = -1 /\ _cappedMaxDocs rs = -1).
Proof.
  unfold getRecordStore. destruct (capped options) eqn:Hc; simpl.
  - split_and!; try done.
    intros _. split_and!; try done.
    + by intros ->.
    + intros Hn. by destruct (Z.eqb_spec (cappedSize options) 0).
    + by intros ->.
    + intros Hn. by destruct (Z.eqb_spec (cappedMaxDocs options) 0).
  - split_and!; done.
Qed.

End Facts.

(** *** The configuration string *)

Lemma append_assoc (a b c : string) : (a +:+ b) +:+ c = a +:+ b +:+ c.
Proof.
  induction a as [|x a IH]; [reflexivity|].
  change (String x ((a +:+ b) +:+ c) = String x (a +:+ b +:+ c)). by f_equal.
Qed.

(** C6. The string passed to [wiredtiger_open] is the entries [create],
    [cache_size=<N>G], [session_max=20000], the [extensions] entry,
    [statistics=(all)], the [log] entry if and only if the engine is durable,
    and the [checkpoint] entry, in this order and each followed by a comma,
    and then the caller's extra options as they are. *)
Theorem wiredtiger_open_config_layout cacheSizeGB durable extraOpenOptions :
  wiredtiger_open_config cacheSizeGB durable extraOpenOptions =
  foldr (fun entry rest => entry +:+ "," +:+ rest) extraOpenOptions
        (openEntries cacheSizeGB durable) /\
  openEntries cacheSizeGB durable =
    ["create"; "cache_size=" +:+ pretty cacheSizeGB +:+ "G";
     "session_max=20000";
     "extensions=[local=(entry=index_collator_extension)]"; "statistics=(all)"]
    ++ (if durable then ["log=(enabled=true,archive=true,path=journal)"] else [])
    ++ ["checkpoint=(wait=60,log_size=2GB)"] /\
  ("log=(enabled=true,archive=true,path=journal)"
     ∈ openEntries cacheSizeGB durable <-> durable = true).
Proof.
  split; [|split].
  - unfold wiredtiger_open_config, openEntries.
    destruct durable; cbn [app foldr]; rewrite !append_assoc; reflexivity.
  - unfold openEntries. by destruct durable.
  - unfold openEntries. destruct durable; simpl.
    + split; [done|]. intros _. rewrite !elem_of_cons. tauto.
    + split; [|done]. rewrite !elem_of_cons, elem_of_nil.
      intros H. repeat (destruct H as [H|H]; [discriminate H|]). done.
Qed.

(** *** Runs on the test engine *)

(** Dropping ident b while a cursor holds its table. *)
Lemma drop_busy_is_queued_witness :
  exists e',
    dropRecordStore (2 ^ 32) "b" Samples.busyEngine = Returned Status_OK e' /\
    dropSortedDataInterface (2 ^ 32) "b" Samples.busyEngine
      = Returned Status_OK e' /\
    "table:b" ∈ _identToDrop e' /\
    _epoch e' = _epoch Samples.busyEngine + 1 /\
    _sessionPool (_sessionCache e') = [].
Proof.
  assert (Hd : drop (_uri "b") (Some "force") (_conn Samples.busyEngine)
               = (EBUSY, _conn Samples.busyEngine))
    by (vm_compute; reflexivity).
  destruct (drop_busy_is_queued (2 ^ 32) "b" Samples.busyEngine _ _ Hd)
    as (Hbusy & _ & _).
  destruct (Hbusy eq_refl)
    as (e' & Hrs & Hsdi & _ & Hin & _ & Hepoch & _ & Hpool & _).
  assert (Hrange : 0 <= _epoch Samples.busyEngine < 2 ^ 32 - 1)
    by (simpl; lia).
  exists e'. split_and!;
    [exact Hrs | exact Hsdi | exact Hin | exact (Hepoch Hrange) | exact Hpool].
Defined.

(** A flush of the size storer while another flush is under way. *)
Lemma syncSizeInfo_swallows_write_conflict_witness :
  syncSizeInfo Samples.conflictEngine = Returned tt Samples.conflictEngine.
Proof.
  exact (syncSizeInfo_swallows_write_conflict Samples.conflictEngine
           {[ "table:c1" := (10, 4096) ]} (_conn Samples.conflictEngine) _
           eq_refl eq_refl eq_refl).
Defined.

(** Renaming a collection of 7 records and 512 bytes stored under ident c1. *)
Lemma okToRename_stores_then_syncs_witness :
  exists e2 ss2,
    okToRename "db.from" "db.to" "c1" (mkRS 7 512) Samples.queuedEngine
      = Returned Status_OK e2 /\
    _sizeStorer e2 = Some ss2 /\
    ss2 !! "table:c1" = Some (7, 512).
Proof.
  destruct (okToRename_stores_then_syncs "db.from" "db.to" "c1" (mkRS 7 512)
              Samples.queuedEngine {[ "table:c1" := (10, 4096) ]} eq_refl)
    as (_ & Hret & Hflush).
  specialize (Hflush (_conn Samples.queuedEngine) (_conn Samples.queuedEngine)
                (_conn Samples.queuedEngine) eq_refl eq_refl eq_refl).
  destruct (Hret _ _ Hflush) as (_ & ss2 & Hss2 & Hentry).
  eexists _, ss2. split_and!; [exact Hflush | exact Hss2 | exact Hentry].
Defined.

(** A flush on the test engine, with either argument. *)
Lemma flushAllFiles_ignores_sync_witness :
  flushAllFiles true Samples.queuedEngine = flushAllFiles false Samples.queuedEngine /\
  exists e', flushAllFiles true Samples.queuedEngine = Returned 1 e'.
Proof.
  destruct (flushAllFiles_ignores_sync Samples.queuedEngine)
    as (Hsame & _ & _ & Hret).
  split; [exact Hsame|]. eexists.
  apply (Hret true (LOG LogFlushAllFiles Samples.queuedEngine)
              (_conn Samples.queuedEngine)); vm_compute; reflexivity.
Defined.

(** A run on the test engine with three names pending, one still held. *)
Lemma dropAllQueued_retries_witness :
  exists e',
    dropAllQueued Samples.queuedEngine = Returned tt e' /\
    forall uri, uri ∈ _identToDrop e' <->
                (uri, EBUSY) ∈ [("table:a", 0); ("table:b", EBUSY); ("table:z", 0)].
Proof.
  assert (Hf : forcedDrops (inOrder (_identToDrop Samples.queuedEngine))
                 (_conn Samples.queuedEngine)
               = ([("table:a", 0); ("table:b", EBUSY); ("table:z", 0)],
                  _conn Samples.queuedEngine))
    by (vm_compute; reflexivity).
  destruct (dropAllQueued_retries _ _ _ Hf) as (_ & Hok & _).
  assert (Hall : Forall (fun r : string * Z => expected r.2)
                   [("table:a", 0); ("table:b", EBUSY); ("table:z", 0)])
    by (repeat constructor; simpl; unfold expected; auto).
  destruct (Hok Hall) as (e' & Hrun & _ & _ & Hbusy).
  exists e'. split; [exact Hrun | exact Hbusy].
Defined.

End EngineFacts.

(** ** Interrupt checks: what they keep and whom the fail point reaches *)

Module InterruptMoreFacts.
Import OperationContext.

(** X1. Whatever [checkForInterrupt] does, a kill that was pending is still
    pending afterwards, and the kill-all flag, the fail point's setting, the
    locker and the client's connection and write state are as they were. *)
Theorem checkForInterrupt_only_marks_killed heedMutex nextAboveBound w w' :
  worldAfter (checkForInterrupt heedMutex nextAboveBound w) = Some w' ->
  (killed w = true -> killed w' = true) /\
  getKillAllOperations w' = getKillAllOperations w /\
  checkForInterruptFail w' = checkForInterruptFail w /\
  lockState w' = lockState w /\
  getConnectionId (getClient w') = getConnectionId (getClient w) /\
  hasWrittenSinceCheckpoint (getClient w')
    = hasWrittenSinceCheckpoint (getClient w).
Proof.
  intros Hafter.
  assert (Hcases : w' = w \/ w' = killCurOp w).
  { revert Hafter. unfold checkForInterrupt.
    destruct (heedMutex && isWriteLocked (lockState w)
              && hasWrittenSinceCheckpoint (getClient w)); [by intros [= <-]; left|].
    destruct (getKillAllOperations w); [by intros [= <-]; left|].
    destruct (maxTimeHasExpired (curop (getClient w))); [by intros [= <-]; right|].
    cbv zeta.
    destruct (killPending (curop (getClient (failPointBlock nextAboveBound w))));
      intros [= <-]; apply InterruptFacts.failPointBlock_cases. }
  destruct Hcases as [-> | ->]; split_and!; done.
Qed.

Lemma checkForInterrupt_only_marks_killed_witness :
  killed (killCurOp Samples.readerPastDeadline) = true /\
  getKillAllOperations (killCurOp Samples.readerPastDeadline) = false.
Proof.
  destruct (checkForInterrupt_only_marks_killed false false
              Samples.readerPastDeadline (killCurOp Samples.readerPastDeadline)
              eq_refl) as (_ & Hflag & _).
  split; [reflexivity | exact Hflag].
Defined.

(** X2. An operation with a kill pending is stopped by its next check unless
    the check is suppressed: [checkForInterrupt] throws and
    [checkForInterruptNoAssert] returns a status that is not OK, whatever the
    fail point draws; without shutdown and without an expired deadline the
    condition thrown is Interrupted. *)
Theorem killed_operation_is_stopped heedMutex nextAboveBound w :
  killed w = true ->
  heedMutex && writeLockedAndDirty w = false ->
  (exists c, signalled (checkForInterrupt heedMutex nextAboveBound w) = Some c /\
             (getKillAllOperations w = false ->
              maxTimeHasExpired (curop (getClient w)) = false ->
              c = Interrupted)) /\
  is_Some (reported (checkForInterruptNoAssert nextAboveBound w)).
Proof.
  unfold writeLockedAndDirty. rewrite andb_assoc. intros Hk Hs.
  pose proof (InterruptFacts.failPointBlock_keeps_kill nextAboveBound w Hk) as Hk'.
  unfold killed in Hk'.
  unfold checkForInterrupt, checkForInterruptNoAssert. rewrite Hs.
  destruct (getKillAllOperations w); [split; [eexists; split; [done|done]|by eexists]|].
  destruct (maxTimeHasExpired (curop (getClient w)));
    [split; [eexists; split; [done|done]|by eexists]|].
  cbv zeta. rewrite Hk'. split; [eexists; split; done | by eexists].
Qed.

Lemma killed_operation_is_stopped_witness :
  exists c,
    signalled (checkForInterrupt true true MoreSamples.killedReader) = Some c /\
    c = Interrupted.
Proof.
  destruct (killed_operation_is_stopped true true MoreSamples.killedReader
              eq_refl eq_refl) as ((c & Hc & Hwhich) & _).
  exists c. split; [exact Hc | exact (Hwhich eq_refl eq_refl)].
Defined.

(** X3. The fail point reaches only the connection it names, and nested
    operations only when asked to: for a healthy operation on another
    connection, or a nested one while [allowNested] is off, every check
    returns and leaves the world as it is, whatever is drawn. *)
Theorem failPoint_spares_untargeted heedMutex nextAboveBound w info :
  checkForInterruptFail w = Some info ->
  getConnectionId (getClient w) <> conn info \/
    (allowNested info = false /\ parent (curop (getClient w)) <> None) ->
  getKillAllOperations w = false ->
  maxTimeHasExpired (curop (getClient w)) = false ->
  killed w = false ->
  checkForInterrupt heedMutex nextAboveBound w = Returned tt w /\
  checkForInterruptNoAssert nextAboveBound w = Returned Status_OK w.
Proof.
  intros Hfp Hnot Hka Hexp Hk. unfold killed in Hk.
  assert (Hblock : failPointBlock nextAboveBound w = w).
  { unfold failPointBlock, opShouldFail. rewrite Hfp.
    destruct Hnot as [Hconn | [Hnest Hpar]].
    - destruct (Z.eqb_spec (getConnectionId (getClient w)) (conn info)); done.
    - rewrite Hnest. rewrite (bool_decide_eq_true_2 _ Hpar). simpl.
      by destruct (negb (getConnectionId (getClient w) =? conn info)). }
  unfold checkForInterrupt, checkForInterruptNoAssert.
  rewrite Hka, Hexp. cbv zeta. rewrite Hblock, Hk.
  split; [|done].
  by destruct (heedMutex && isWriteLocked (lockState w)
               && hasWrittenSinceCheckpoint (getClient w)).
Qed.

Lemma failPoint_spares_untargeted_witness :
  checkForInterrupt true false MoreSamples.onOtherConnection
  = Returned tt MoreSamples.onOtherConnection.
Proof.
  refine (proj1 (failPoint_spares_untargeted true false
                   MoreSamples.onOtherConnection _ eq_refl _ eq_refl eq_refl
                   eq_refl)).
  left. discriminate.
Defined.

(** X4. On the connection the fail point names (and, for a nested operation,
    with [allowNested] on), a draw within the chance kills: an operation that
    was healthy is marked killed and its check throws Interrupted, and the
    non-throwing variant returns a status that is not OK over the same
    world. *)
Theorem failPoint_kills_targeted heedMutex w info :
  checkForInterruptFail w = Some info ->
  getConnectionId (getClient w) = conn info ->
  allowNested info = true \/ parent (curop (getClient w)) = None ->
  heedMutex && writeLockedAndDirty w = false ->
  getKillAllOperations w = false ->
  maxTimeHasExpired (curop (getClient w)) = false ->
  checkForInterrupt heedMutex false w
  = Thrown (UserException Interrupted "operation was interrupted") (killCurOp w) /\
  checkForInterruptNoAssert false w
  = Returned (mkStatus Interrupted "interrupted") (killCurOp w).
Proof.
  unfold writeLockedAndDirty. rewrite andb_assoc.
  intros Hfp Hconn Hnest Hs Hka Hexp.
  assert (Hblock : failPointBlock false w = killCurOp w).
  { unfold failPointBlock, opShouldFail. rewrite Hfp, Hconn, Z.eqb_refl. simpl.
    destruct Hnest as [-> | ->]; [done|].
    rewrite bool_decide_eq_false_2 by (intros H; by apply H).
    by rewrite andb_false_r. }
  unfold checkForInterrupt, checkForInterruptNoAssert.
  rewrite Hs, Hka, Hexp. cbv zeta. rewrite Hblock. done.
Qed.

Lemma failPoint_kills_targeted_witness :
  checkForInterrupt true false MoreSamples.onTargetedConnection
  = Thrown (UserException Interrupted "operation was interrupted")
           (killCurOp MoreSamples.onTargetedConnection).
Proof.
  refine (proj1 (failPoint_kills_targeted true MoreSamples.onTargetedConnection
                   _ eq_refl eq_refl _ eq_refl eq_refl eq_refl)).
  left. reflexivity.
Defined.

(** X5. The non-throwing variant fails exactly when [checkForInterrupt]
    without the suppression signals, and it leaves the same world behind, in
    particular the same kill flag. *)
Theorem checkForInterruptNoAssert_agrees nextAboveBound w :
  (is_Some (reported (checkForInterruptNoAssert nextAboveBound w)) <->
   is_Some (signalled (checkForInterrupt false nextAboveBound w))) /\
  worldAfter (checkForInterruptNoAssert nextAboveBound w) =
  worldAfter (checkForInterrupt false nextAboveBound w).
Proof.
  unfold checkForInterruptNoAssert, checkForInterrupt. simpl.
  destruct (getKillAllOperations w); [by split; [split; eauto|]|].
  destruct (maxTimeHasExpired (curop (getClient w))); [by split; [split; eauto|]|].
  destruct (killPending (curop (getClient (failPointBlock nextAboveBound w))));
    simpl; [by split; [split; eauto|]|].
  split; [|done]. split; intros [? ?]; discriminate.
Qed.

End InterruptMoreFacts.

(** ** Construction and the recovery unit: facts *)

Module ConstructionFacts.
Import Construction.

Lemma addAndFetch1_shift c k :
  (addAndFetch1 c + k + 1) `mod` 2 ^ 64 = (c + (k + 1) + 1) `mod` 2 ^ 64.
Proof.
  unfold addAndFetch1.
  replace ((c + 1) `mod` 2 ^ 64 + k + 1) with ((c + 1) `mod` 2 ^ 64 + (k + 1)) by lia.
  rewrite Zplus_mod_idemp_l. f_equal. lia.
Qed.

(** The ids of contexts constructed one after the other count up from the
    counter, on 64 bits. *)
Lemma constructMany_ids n p ctxs p' :
  constructMany n p = Some (ctxs, p') ->
  (fun ctx => lockerId (_locker ctx)) <$> ctxs =
  (fun k : nat => (idCounter p + Z.of_nat k + 1) `mod` 2 ^ 64) <$> seq 0 n.
Proof.
  revert p ctxs p'. induction n as [|n IH]; intros p ctxs p' Hrun.
  { simpl in Hrun. by simplify_eq. }
  simpl in Hrun. unfold construct in Hrun.
  destruct (currentClient p) as [client|]; [|done].
  destruct (getGlobalStorageEngine p) as [engine|]; [|done].
  destruct (constructMany n _) as [[rest p2]|] eqn:Hrest; [|done].
  simplify_eq. apply IH in Hrest. simpl in Hrest.
  cbn [seq fmap list_fmap]. rewrite <- fmap_S_seq, <- list_fmap_compose.
  f_equal.
  - destruct (isMmapV1 engine); simpl; unfold addAndFetch1; f_equal; lia.
  - rewrite Hrest. apply list_fmap_ext. intros i k _. simpl.
    rewrite addAndFetch1_shift. f_equal. lia.
Qed.

(** X6. Contexts constructed one after the other carry pairwise different
    locker ids, as long as no more than 2^64 are constructed. *)
Theorem constructMany_distinct_ids n p ctxs p' :
  constructMany n p = Some (ctxs, p') ->
  Z.of_nat n <= 2 ^ 64 ->
  NoDup ((fun ctx => lockerId (_locker ctx)) <$> ctxs).
Proof.
  intros Hrun Hn. rewrite (constructMany_ids _ _ _ _ Hrun).
  apply NoDup_fmap_2_strong; [|apply NoDup_seq].
  intros i j Hi%elem_of_seq Hj%elem_of_seq Heq.
  assert (Hz : Z.of_nat i = Z.of_nat j); [|lia].
  revert Heq. generalize (idCounter p). intros c Heq.
  assert (0 <= Z.of_nat i < 2 ^ 64) by lia.
  assert (0 <= Z.of_nat j < 2 ^ 64) by lia.
  revert Heq. generalize dependent (Z.of_nat i). generalize dependent (Z.of_nat j).
  intros a Ha b Hb. generalize (2 ^ 64) Ha Hb. clear. intros m Ha Hb Heq.
  assert (Hm : 0 < m) by lia.
  pose proof (Z.div_mod (c + b + 1) m ltac:(lia)) as E1.
  pose proof (Z.div_mod (c + a + 1) m ltac:(lia)) as E2.
  rewrite Heq in E1.
  assert (Hd : b - a = m * ((c + b + 1) `div` m - (c + a + 1) `div` m)) by lia.
  revert Hd. generalize ((c + b + 1) `div` m - (c + a + 1) `div` m).
  intros q Hd.
  destruct (Z.lt_trichotomy q 0) as [Hq | [-> | Hq]]; [nia | lia | nia].
Qed.

(** Three constructions across the end of the counter's 64 bits. *)
Lemma constructMany_distinct_ids_witness :
  NoDup [2 ^ 64 - 1; 0; 1].
Proof.
  refine (constructMany_distinct_ids 3 MoreSamples.lateProcess _ _ eq_refl _).
  vm_compute. discriminate.
Defined.

(** X7. Releasing the recovery unit hands it out, told that it is being
    released, and leaves the context without one, so that a second release
    gives [NULL]; setting the released unit again gives back the context it
    came from, with the unit told first that it was released and then that
    it is set. *)
Theorem release_then_set ctx u :
  _recovery ctx = Some u ->
  let released := releaseRecoveryUnit ctx in
  released.1 = Some (notify beingReleasedFromOperationContext u) /\
  recoveryUnit released.2 = None /\
  (releaseRecoveryUnit released.2).1 = None /\
  setRecoveryUnit released.1 released.2 =
    mkOperationContext (_client ctx)
      (Some (mkRecoveryUnit (unitId u)
               (notices u ++ [beingReleasedFromOperationContext;
                              beingSetOnOperationContext])))
      (_locker ctx).
Proof.
  intros Hu. unfold releaseRecoveryUnit, setRecoveryUnit, recoveryUnit, notify.
  rewrite Hu. simpl. split_and!; try done.
  by rewrite <- app_assoc.
Qed.

Lemma release_then_set_witness :
  recoveryUnit
    (setRecoveryUnit (releaseRecoveryUnit MoreSamples.freshContext).1
                     (releaseRecoveryUnit MoreSamples.freshContext).2)
  = Some (mkRecoveryUnit 5 [beingReleasedFromOperationContext;
                            beingSetOnOperationContext]).
Proof.
  destruct (release_then_set MoreSamples.freshContext (mkRecoveryUnit 5 [])
              eq_refl) as (_ & _ & _ & Hset).
  rewrite Hset. reflexivity.
Defined.

End ConstructionFacts.

(** ** The engine: naming, budget, maintenance *)

Module EngineMoreFacts.
Import KVEngine KVEngineMore.

(** X8. Resource naming is one-to-one: two idents name the same table only
    when they are the same ident, so record stores of different idents are
    bound to different uris; a record store and an index of one ident are
    bound to the same uri, and the index object answers [unique()] as the
    descriptor does. *)
Theorem uri_names_one_table ident1 ident2 :
  (_uri ident1 = _uri ident2 <-> ident1 = ident2) /\
  (forall WT (e : WiredTigerKVEngine WT) ns1 ns2 o1 o2,
     rs_uri (getRecordStore ns1 ident1 o1 e)
     = rs_uri (getRecordStore ns2 ident2 o2 e) <-> ident1 = ident2) /\
  (forall desc,
     getSortedDataInterface ident1 desc
     = (if unique (getSortedDataInterface ident1 desc)
        then WiredTigerIndexUnique (_uri ident1)
        else WiredTigerIndexStandard (_uri ident1)) /\
     unique (getSortedDataInterface ident1 desc) = desc_unique desc).
Proof.
  assert (Hinj : _uri ident1 = _uri ident2 <-> ident1 = ident2).
  { split; [|by intros ->]. unfold _uri. intros H. cbv in H. by simplify_eq. }
  split; [exact Hinj|]. split.
  - intros WT e ns1 ns2 o1 o2. unfold getRecordStore.
    by destruct (capped o1), (capped o2).
  - intros desc. unfold getSortedDataInterface. by destruct (desc_unique desc).
Qed.

(** X9. The cache budget the constructor puts into the configuration is never
    below 1: it is 1 when a detected size is not positive, and otherwise the
    converted tenth of memory in GiB raised to 1 when it is less. *)
Theorem cacheSizeGB_floor pageSizePositive numPagesPositive castGB :
  1 <= cacheSizeGB pageSizePositive numPagesPositive castGB /\
  cacheSizeGB pageSizePositive numPagesPositive castGB =
    (if pageSizePositive && numPagesPositive then Z.max 1 castGB else 1).
Proof.
  unfold cacheSizeGB.
  destruct (pageSizePositive && numPagesPositive); [|done].
  cbv zeta. destruct (Z.ltb_spec castGB 1); lia.
Qed.

Section Facts.
Context {WT : Type} `{!WiredTiger WT}.
Implicit Types (e : WiredTigerKVEngine WT) (X deleted : gset string).
Implicit Types (replies : list (string * Z)) (mine : list string).

Lemma memory_afterCalls (c : WT) lines e : memory (afterCalls c lines e) = memory e.
Proof. done. Qed.

Lemma memory_set_conn (c : WT) e : memory (set_conn c e) = memory e.
Proof. done. Qed.

(** The first loop of [dropAllQueued] only talks to the engine and logs; it
    never throws, and it ends the process on an unexpected reply only. *)
Lemma dropQueued_outcomes mine deleted e :
  match dropQueued mine deleted e with
  | Returned _ e' => exists (c : WT) lines, e' = afterCalls c lines e
  | Thrown _ _ => False
  | Terminated why => exists rc, why = InvariantWTFailed rc /\ ~ expected rc
  end.
Proof.
  revert deleted e. induction mine as [|uri rest IH]; intros deleted e.
  { simpl. exists (_conn e), []. by rewrite EngineFacts.afterCalls_nil. }
  simpl. unfold bind, onConn.
  destruct (drop uri (Some "force") (_conn e)) as [rc c1].
  assert (Hnext : forall d,
    match dropQueued rest d (LOG (LogQueuedDrop uri rc) (set_conn c1 e)) with
    | Returned _ e' => exists (c : WT) lines, e' = afterCalls c lines e
    | Thrown _ _ => False
    | Terminated why => exists rc, why = InvariantWTFailed rc /\ ~ expected rc
    end).
  { intros d. specialize (IH d (LOG (LogQueuedDrop uri rc) (set_conn c1 e))).
    destruct (dropQueued rest d _) as [d' e' | |]; [|done..].
    destruct IH as (c & lines & ->). eexists c, _.
    apply EngineFacts.afterCalls_LOG. }
  destruct (Z.eqb_spec rc 0) as [-> | Hnz]; [apply Hnext|].
  destruct (Z.eqb_spec rc EBUSY) as [-> | Hnb]; [apply Hnext|].
  unfold invariantWTOK. destruct (Z.eqb_spec rc 0); [done|].
  exists rc. split; [done|]. by intros [? | ?].
Qed.

(** X10. A run of [dropAllQueued] never throws. When it returns, the pending
    set has only shrunk, and the epoch, the session pool and the size storer
    are as before: unlike a busy drop, a retry neither advances the epoch nor
    closes sessions. When it ends the process, it is on an engine reply that
    is neither 0 nor [EBUSY]. *)
Theorem dropAllQueued_outcomes e :
  match dropAllQueued e with
  | Returned _ e' =>
      _identToDrop e' ⊆ _identToDrop e /\
      _epoch e' = _epoch e /\
      _sessionCache e' = _sessionCache e /\
      _sizeStorer e' = _sizeStorer e
  | Thrown _ _ => False
  | Terminated why => exists rc, why = InvariantWTFailed rc /\ ~ expected rc
  end.
Proof.
  unfold dropAllQueued, bind.
  pose proof (dropQueued_outcomes (inOrder (_identToDrop e)) ∅ e) as H.
  destruct (dropQueued (inOrder (_identToDrop e)) ∅ e) as [d e' | |]; [|done..].
  destruct H as (c & lines & ->). simpl.
  rewrite EngineFacts.eraseAll_inOrder. split_and!; try done.
  apply subseteq_difference_l. done.
Qed.


(** How [syncSizeInfo] can end: it never lets a write conflict out, and what
    it leaves differs from what it found in the connection only. *)
Lemma syncSizeInfo_outcomes e :
  match syncSizeInfo e with
  | Returned _ e' => exists c : WT, e' = set_conn c e
  | Thrown x e' => x <> WriteConflictException /\ exists c : WT, e' = set_conn c e
  | Terminated _ => True
  end.
Proof.
  unfold syncSizeInfo, catchWriteConflict, bind, onConn, onSession.
  destruct (_sizeStorer e) as [ss|]; [|exists (_conn e); by destruct e].
  destruct (begin_transaction (Some "sync=true") (_conn e)) as [rc c1]. simpl.
  unfold invariantWTOK. destruct (rc =? 0); [|done]. simpl.
  destruct (storeInto ss (_sizeStorerUri e) c1) as [[] c2 | x c2 | why]; simpl.
  - destruct (commit_transaction None c2) as [rc' c3]. simpl.
    destruct (rc' =? 0); [|done]. by exists c3.
  - destruct x; try (split; [done | by exists c2]). by exists c2.
  - done.
Qed.

(** X12. Neither [syncSizeInfo] nor [flushAllFiles] ever lets a
    [WriteConflictException] out, and whether they return or throw they leave
    the epoch, the session pool, the in-memory size storer and the pending
    drops as they were; a flush that returns has logged one line. *)
Theorem flush_keeps_memory e :
  match syncSizeInfo e with
  | Returned _ e' => memory e' = memory e /\ _log e' = _log e
  | Thrown x e' => x <> WriteConflictException /\ memory e' = memory e
  | Terminated _ => True
  end /\
  forall sync,
    match flushAllFiles sync e with
    | Returned _ e' =>
        memory e' = memory e /\ _log e' = _log e ++ [LogFlushAllFiles]
    | Thrown x e' => x <> WriteConflictException /\ memory e' = memory e
    | Terminated _ => True
    end.
Proof.
  split.
  - pose proof (syncSizeInfo_outcomes e) as H.
    destruct (syncSizeInfo e) as [[] e' | x e' |]; [| |done].
    + by destruct H as (c & ->).
    + by destruct H as (Hx & c & ->).
  - intros sync. unfold flushAllFiles, bind, onConn, ret.
    pose proof (syncSizeInfo_outcomes (LOG LogFlushAllFiles e)) as H.
    destruct (syncSizeInfo (LOG LogFlushAllFiles e)) as [[] e' | x e' |]; [| |done].
    + destruct H as (c & ->). simpl.
      destruct (checkpoint None c) as [rc c']. unfold invariantWTOK.
      by destruct (rc =? 0).
    + by destruct H as (Hx & c & ->).
Qed.



(** X15. [okToRename] rewrites the size storer's entry of the renamed ident
    and of no other: when it returns, the entry of every other ident is what
    it was. *)
Theorem okToRename_keeps_other_entries fromNS toNS ident rs e ss st e2 :
  _sizeStorer e = Some ss ->
  okToRename fromNS toNS ident rs e = Returned st e2 ->
  exists ss2,
    _sizeStorer e2 = Some ss2 /\
    ss2 !! _uri ident = Some (numRecords rs, dataSize rs) /\
    forall other, other <> ident -> ss2 !! _uri other = ss !! _uri other.
Proof.
  intros Hss. unfold okToRename. rewrite Hss. unfold bind, ret.
  pose proof (syncSizeInfo_outcomes
                (set_sizeStorer
                   (Some (store (_uri ident) (numRecords rs) (dataSize rs) ss)) e))
    as H.
  destruct (syncSizeInfo _) as [[] e' | |]; [|done..].
  destruct H as (c & ->). intros [= <- <-]. eexists. split; [reflexivity|].
  unfold store. split; [apply lookup_insert_eq|].
  intros other Hother. apply lookup_insert_ne.
  intros Huri. apply Hother. symmetry.
  unfold _uri in Huri. cbv in Huri. by simplify_eq.
Qed.

End Facts.

(** A flush on the test engine while another flush is under way. *)
Lemma flush_keeps_memory_witness :
  exists e',
    flushAllFiles true Samples.conflictEngine = Returned 1 e' /\
    memory e' = memory Samples.conflictEngine.
Proof.
  pose proof (proj2 (flush_keeps_memory Samples.conflictEngine) true) as H.
  destruct (flushAllFiles true Samples.conflictEngine) as [n e' | |] eqn:Hrun;
    [|discriminate Hrun..].
  exists e'. split; [|exact (proj1 H)].
  revert Hrun. vm_compute. intros [= <- _]. reflexivity.
Defined.



(** Renaming ident c2 on the test engine, whose size storer knows c1. *)
Lemma okToRename_keeps_other_entries_witness :
  exists e2 ss2,
    okToRename "db.from" "db.to" "c2" (mkRS 7 512) Samples.queuedEngine
      = Returned Status_OK e2 /\
    _sizeStorer e2 = Some ss2 /\
    ss2 !! "table:c1" = Some (10, 4096).
Proof.
  destruct (okToRename "db.from" "db.to" "c2" (mkRS 7 512) Samples.queuedEngine)
    as [st e2 | |] eqn:Hrun; [|discriminate Hrun..].
  destruct (okToRename_keeps_other_entries "db.from" "db.to" "c2" (mkRS 7 512)
              Samples.queuedEngine {[ "table:c1" := (10, 4096) ]} st e2
              eq_refl Hrun) as (ss2 & Hss2 & _ & Hother).
  exists e2, ss2. split_and!.
  - f_equal. revert Hrun. vm_compute. by intros [= <- _].
  - exact Hss2.
  - pose proof (Hother "c1" ltac:(discriminate)) as Hc1.
    change (_uri "c1") with "table:c1" in Hc1. rewrite Hc1. reflexivity.
Defined.


End EngineMoreFacts.

(** ** Replication's view of the local database: facts *)

Module ReplFacts.
Import Repl.


(** A lookup finds the first field of the name: the fields before it have
    other names. *)
Lemma getField_Some obj name n v :
  getField obj name = Some (n, v) <->
  n = name /\
  exists pre post, obj = pre ++ (name, v) :: post /\ forall v', (name, v') ∉ pre.
Proof.
  revert n v. induction obj as [|[n0 v0] obj IH]; intros n v; simpl.
  - split; [done|]. intros (_ & pre & post & H & _). by destruct pre.
  - case_bool_decide as Hn.
    + subst. split.
      * intros [= <- <-]. split; [done|]. exists [], obj. split; [done|].
        intros v' H. by apply elem_of_nil in H.
      * intros (-> & pre & post & Hobj & Hpre). destruct pre as [|p pre].
        { by simplify_eq/=. }
        simplify_eq/=. exfalso. apply (Hpre v0), list_elem_of_here.
    + rewrite IH. split.
      * intros (-> & pre & post & -> & Hpre). split; [done|].
        exists ((n0, v0) :: pre), post. split; [done|].
        intros v' [[= <- _] | Hin]%elem_of_cons; [done | by apply (Hpre v')].
      * intros (-> & pre & post & Hobj & Hpre). split; [done|].
        destruct pre as [|p pre]; simplify_eq/=.
        exists pre, post. split; [done|].
        intros v' Hin. apply (Hpre v'), list_elem_of_further, Hin.
Qed.

Section Names.
Variable rsoplog : string.
Variable typeName : BSONType -> string.

(** X16. [loadLastOpTime] returns an optime exactly when the most recent
    oplog entry was found and the first of its fields named [ts] is a
    timestamp; the optime is that field's. Fields named [ts] after the first
    are not looked at. *)
Theorem loadLastOpTime_value getLast secs inc :
  loadLastOpTime rsoplog typeName getLast = inl (inr (secs, inc)) <->
  exists pre post,
    getLast = Got (pre ++ ("ts", TimestampValue secs inc) :: post) /\
    forall v, ("ts", v) ∉ pre.
Proof.
  unfold loadLastOpTime, tsFieldName. split.
  - destruct getLast as [obj | | |]; try done.
    destruct (getField obj "ts") as [[n v]|] eqn:Hget; [|done].
    apply getField_Some in Hget as (-> & pre & post & -> & Hpre).
    destruct v as [s i | number]; simpl; [|done].
    intros [= <- <-]. by exists pre, post.
  - intros (pre & post & -> & Hpre).
    assert (Hget : getField (pre ++ ("ts", TimestampValue secs inc) :: post) "ts"
                   = Some ("ts", TimestampValue secs inc)).
    { apply getField_Some. split; [done|]. by exists pre, post. }
    by rewrite Hget.
Qed.


End Names.

(** X18. [dropAllTempCollections] clears the temporary collections of every
    listed database but [local], once each and in the order listed; [local]
    is never cleared and never looked up, so the outcome is the same
    whether or not it is open. The invariant fails exactly when a listed
    database other than [local] is not open. *)
Theorem dropAllTempCollections_spares_local dbNames get :
  dropAllTempCollections dbNames get
    = mapM get (filter (fun name => name <> "local") dbNames) /\
  (forall get',
     (forall name, name <> "local" -> get' name = get name) ->
     dropAllTempCollections dbNames get' = dropAllTempCollections dbNames get) /\
  (dropAllTempCollections dbNames get = None <->
   exists name, name ∈ dbNames /\ name <> "local" /\ get name = None).
Proof.
  assert (Hspec : forall g, dropAllTempCollections dbNames g
                  = mapM g (filter (fun name => name <> "local") dbNames)).
  { intros g. induction dbNames as [|name rest IH]; simpl; [done|].
    case_bool_decide as Hn.
    - rewrite filter_cons_False by (intros H; by apply H). exact IH.
    - rewrite filter_cons_True by done. simpl. rewrite <- IH.
      by destruct (g name). }
  split; [apply Hspec|]. split.
  - intros get' Hsame. rewrite !Hspec. apply Forall_mapM_ext, Forall_forall.
    intros name [Hname _]%list_elem_of_filter. by apply Hsame.
  - rewrite Hspec, mapM_None, Exists_exists. split.
    + intros (name & [Hname Hin]%list_elem_of_filter & Hget). by exists name.
    + intros (name & Hin & Hname & Hget). exists name. split; [|done].
      by apply list_elem_of_filter.
Qed.

(** Listing [local] and two open databases, with [local] itself closed. *)
Lemma dropAllTempCollections_spares_local_witness :
  dropAllTempCollections ["test"; "local"; "admin"] MoreSamples.openDatabases
  = Some [2; 3].
Proof.
  rewrite (proj1 (dropAllTempCollections_spares_local
                    ["test"; "local"; "admin"] MoreSamples.openDatabases)).
  reflexivity.
Defined.

(** The sample oplog entry has two fields named [ts]; the first decides. *)
Lemma loadLastOpTime_value_witness :
  loadLastOpTime "local.oplog.rs" (fun _ => "?") (Got MoreSamples.oplogEntry)
  = inl (inr (1417000000, 3)).
Proof.
  apply (loadLastOpTime_value "local.oplog.rs" (fun _ => "?")).
  exists [("h", OtherValue 18)], [("ts", OtherValue 2)]. split; [reflexivity|].
  intros v H. apply list_elem_of_singleton in H. discriminate H.
Defined.

End ReplFacts.

(** ** The cache budget in double precision *)

Module CacheBudgetFacts.
Import CacheBudget.

(** The number of binary digits of a mantissa. *)
Lemma digits2_pos_size p : digits2_pos p = Pos.size p.
Proof. induction p; simpl; congruence. Qed.

Lemma Zdigits2_range p k :
  0 < k -> 2 ^ (k - 1) <= Zpos p < 2 ^ k -> Zpos (digits2_pos p) = k.
Proof.
  intros Hk [Hlo Hhi]. rewrite digits2_pos_size.
  pose proof (Pos.size_gt p) as Hgt. pose proof (Pos.size_le p) as Hle.
  apply Pos2Z.pos_lt_pos in Hgt. apply Pos2Z.pos_le_pos in Hle.
  rewrite Pos2Z.inj_pow in Hgt, Hle. change (Z.pos 2) with 2 in *.
  set (s := Zpos (Pos.size p)) in *.
  assert (0 < s) by (subst s; lia).
  destruct (Z.lt_trichotomy s k) as [Hlt | [Heq | Hgt']]; [|done|].
  - exfalso. assert (2 ^ s <= 2 ^ (k - 1)) by (apply Z.pow_le_mono_r; lia). lia.
  - exfalso. assert (2 ^ k <= 2 ^ (s - 1)) by (apply Z.pow_le_mono_r; lia).
    assert (2 ^ s = 2 * 2 ^ (s - 1))
      by (rewrite <- Z.pow_succ_r by lia; f_equal; lia).
    lia.
Qed.

Lemma div_eucl_eq a b : Z.div_eucl a b = (a / b, a mod b).
Proof. unfold Z.div, Z.modulo. by destruct (Z.div_eucl a b). Qed.

(** no shift *)

(** Rounding a quotient that already has 53 digits, and one that has 54. *)
Lemma binary_round_aux_exact_width s p ex l pm :
  Zpos (digits2_pos p) = 53 ->
  -1074 <= ex <= 971 ->
  round_nearest_even (Zpos p) l = Zpos pm ->
  Zpos (digits2_pos pm) = 53 ->
  binary_round_aux 53 1024 s (Zpos p) ex l = S754_finite s pm ex.
Proof.
  intros Hd He Hr Hdm. unfold binary_round_aux, shr_fexp. simpl Zdigits2.
  rewrite Hd.
  replace (fexp 53 1024 (53 + ex) - ex) with 0 by (unfold fexp, emin; lia).
  simpl shr. cbv beta iota zeta.
  assert (Hm : shr_m (shr_record_of_loc (Zpos p) l) = Zpos p)
    by (destruct l as [|[]]; reflexivity).
  assert (Hl : loc_of_shr_record (shr_record_of_loc (Zpos p) l) = l)
    by (destruct l as [|[]]; reflexivity).
  rewrite Hm, Hl, Hr. simpl Zdigits2. rewrite Hdm.
  replace (fexp 53 1024 (53 + ex) - ex) with 0 by (unfold fexp, emin; lia).
  simpl shr. cbv beta iota zeta. simpl shr_m.
  change (1024 - 53) with 971. replace (ex <=? 971) with true by (symmetry; apply Z.leb_le; lia).
  reflexivity.
Qed.

(** one shift *)

Lemma binary_round_aux_one_wider s p ex l pm :
  Zpos (digits2_pos p) = 54 ->
  -1075 <= ex <= 970 ->
  round_nearest_even (shr_m (shr_1 (shr_record_of_loc (Zpos p) l)))
                     (loc_of_shr_record (shr_1 (shr_record_of_loc (Zpos p) l)))
    = Zpos pm ->
  Zpos (digits2_pos pm) = 53 ->
  binary_round_aux 53 1024 s (Zpos p) ex l = S754_finite s pm (ex + 1).
Proof.
  intros Hd He Hr Hdm. unfold binary_round_aux, shr_fexp. simpl Zdigits2.
  rewrite Hd.
  replace (fexp 53 1024 (54 + ex) - ex) with 1 by (unfold fexp, emin; lia).
  simpl shr. cbv beta iota zeta. rewrite Hr. simpl Zdigits2. rewrite Hdm.
  replace (fexp 53 1024 (53 + (ex + 1)) - (ex + 1)) with 0
    by (unfold fexp, emin; lia).
  simpl shr. cbv beta iota zeta. simpl shr_m.
  change (1024 - 53) with 971. replace (ex + 1 <=? 971) with true by (symmetry; apply Z.leb_le; lia).
  reflexivity.
Qed.

(** Dividing a normal double by [1024 * 1024 * 1024] is exact. *)
Lemma ddiv_gib m e :
  2 ^ 52 <= Zpos m < 2 ^ 53 ->
  -1043 <= e <= 1000 ->
  ddiv (S754_finite false m e) gib = S754_finite false m (e - 30).
Proof.
  intros Hm He. unfold ddiv, gib, SFdiv, SFdiv_core_binary.
  change (Zdigits2 (Zpos m)) with (Zpos (digits2_pos m)).
  rewrite (Zdigits2_range m 53) by lia.
  change (Zdigits2 (Zpos 4503599627370496)) with 53.
  replace (Z.min (fexp 53 1024 (53 + e - (53 + -22))) (e - -22)) with (e - 31)
    by (unfold fexp, emin; lia).
  replace (e - -22 - (e - 31)) with 53 by lia.
  rewrite Z.shiftl_mul_pow2 by lia. rewrite div_eucl_eq.
  change (2 ^ 53) with 9007199254740992. change (2 ^ 52) with 4503599627370496 in Hm.
  change (2 ^ 53) with 9007199254740992 in Hm.
  assert (Hq : Z.pos m * 9007199254740992 / 4503599627370496 = Zpos (m~0)).
  { symmetry. apply (Z.div_unique _ _ _ 0); lia. }
  assert (Hr : (Z.pos m * 9007199254740992) mod 4503599627370496 = 0).
  { symmetry. apply (Z.mod_unique _ _ (Zpos (m~0))); lia. }
  rewrite Hq, Hr. cbv beta iota zeta.
  change (new_location 4503599627370496 0) with loc_Exact.
  rewrite (binary_round_aux_one_wider _ (m~0) (e - 31) loc_Exact m).
  - f_equal. lia.
  - apply Zdigits2_range; lia.
  - lia.
  - reflexivity.
  - apply Zdigits2_range; lia.
Qed.

(** Dividing a normal double by ten: the quotient is within two fifths of a
    unit in the last place of the exact tenth. *)
Lemma ddiv_ten m e :
  2 ^ 52 <= Zpos m < 2 ^ 53 ->
  -1070 <= e <= 970 ->
  exists M E,
    ddiv (S754_finite false m e) ten = S754_finite false M E /\
    2 ^ 52 <= Zpos M < 2 ^ 53 /\
    ((E = e - 4 /\ -2 <= 5 * Zpos M - 8 * Zpos m <= 2) \/
     (E = e - 3 /\ -2 <= 5 * Zpos M - 4 * Zpos m <= 2)).
Proof.
  intros Hm He. unfold ddiv, ten, SFdiv, SFdiv_core_binary.
  change (Zdigits2 (Zpos m)) with (Zpos (digits2_pos m)).
  rewrite (Zdigits2_range m 53) by lia.
  change (Zdigits2 (Zpos 5629499534213120)) with 53.
  replace (Z.min (fexp 53 1024 (53 + e - (53 + -49))) (e - -49)) with (e - 4)
    by (unfold fexp, emin; lia).
  replace (e - -49 - (e - 4)) with 53 by lia.
  rewrite Z.shiftl_mul_pow2 by lia. rewrite div_eucl_eq.
  change (2 ^ 53) with 9007199254740992 in *.
  change (2 ^ 52) with 4503599627370496 in *.
  pose proof (Z.div_mod (8 * Zpos m) 5 ltac:(lia)) as Hdiv.
  pose proof (Z.mod_pos_bound (8 * Zpos m) 5 ltac:(lia)) as Hrho.
  set (q := 8 * Zpos m / 5) in *. set (rho := (8 * Zpos m) mod 5) in *.
  assert (Hq : Z.pos m * 9007199254740992 / 5629499534213120 = q).
  { symmetry. apply (Z.div_unique _ _ _ (rho * 1125899906842624)); lia. }
  assert (Hr : (Z.pos m * 9007199254740992) mod 5629499534213120
               = rho * 1125899906842624).
  { symmetry. apply (Z.mod_unique _ _ q); lia. }
  rewrite Hq, Hr. cbv beta iota zeta. change (xorb false false) with false.
  destruct q as [|p|p] eqn:Eq; [lia | | lia].
  assert (Hcases : rho = 0 \/ rho = 1 \/ rho = 2 \/ rho = 3 \/ rho = 4) by lia.
  assert (Hrange : forall p' : positive,
            4503599627370496 <= Zpos p' < 9007199254740992 ->
            Zpos (digits2_pos p') = 53).
  { intros p' Hp'. apply Zdigits2_range; [lia|].
    change (2 ^ (53 - 1)) with 4503599627370496;
      change (2 ^ 53) with 9007199254740992. lia. }
  destruct (Z.lt_ge_cases (Zpos p) 9007199254740992) as [Hsmall | Hbig].
  - (* 53 digits *)
    assert (Hd : Zpos (digits2_pos p) = 53)
      by (apply Zdigits2_range; [lia|]; change (2 ^ (53 - 1)) with 4503599627370496;
          change (2 ^ 53) with 9007199254740992; lia).
    destruct Hcases as [H0 | [H0 | [H0 | [H0 | H0]]]]; rewrite H0 in *;
      match goal with
      | |- context [new_location ?a ?b] =>
          let l := eval vm_compute in (new_location a b) in
          change (new_location a b) with l
      end.
    all: try (exists p, (e - 4);
              rewrite (binary_round_aux_exact_width _ p (e - 4) _ p);
              [ split; [reflexivity | split; [lia | left; lia ] ]
              | done | lia | reflexivity | done ]).
    all: try (exists (p + 1)%positive, (e - 4);
              rewrite (binary_round_aux_exact_width _ p (e - 4) _ (p + 1)%positive);
              [ split; [reflexivity | split; [lia | left; lia ] ]
              | done | lia | reflexivity | apply Hrange; lia ]).
  - (* 54 digits *)
    assert (Hd : Zpos (digits2_pos p) = 54)
      by (apply Zdigits2_range; [lia|]; change (2 ^ (54 - 1)) with 9007199254740992;
          change (2 ^ 54) with 18014398509481984; lia).
    destruct Hcases as [H0 | [H0 | [H0 | [H0 | H0]]]]; rewrite H0 in *;
      match goal with
      | |- context [new_location ?a ?b] =>
          let l := eval vm_compute in (new_location a b) in
          change (new_location a b) with l
      end;
      destruct p as [p' | p' | ]; try lia.
    all: try (exists p', (e - 3);
              rewrite (binary_round_aux_one_wider _ _ (e - 4) _ p');
              [ split; [f_equal; lia | split; [lia | right; lia ] ]
              | done | lia | reflexivity | apply Hrange; lia ]).
    all: try (exists (p' + 1)%positive, (e - 3);
              rewrite (binary_round_aux_one_wider _ _ (e - 4) _ (p' + 1)%positive);
              [ split; [f_equal; lia | split; [lia | right; lia ] ]
              | done | lia | reflexivity | apply Hrange; lia ]).
Qed.

Lemma wholeGiBTenth_eq m e :
  e <= 31 -> wholeGiBTenth m e = m / (5 * 2 ^ (31 - e)).
Proof.
  intros He. unfold wholeGiBTenth. destruct (Z.leb_spec 0 e) as [Hpos | Hneg].
  - replace (10 * 2 ^ 30) with (5 * 2 ^ (31 - e) * 2 ^ e).
    + apply Z.div_mul_cancel_r; [|lia].
      assert (0 < 2 ^ (31 - e)) by (apply Z.pow_pos_nonneg; lia). lia.
    + rewrite <- Z.mul_assoc, <- Z.pow_add_r by lia.
      replace (31 - e + e) with 31 by lia. reflexivity.
  - f_equal. replace (31 - e) with (31 + - e) by lia.
    rewrite Z.pow_add_r by lia. change (2 ^ 31) with (2 * 2 ^ 30). lia.
Qed.

Lemma wholeGiBTenth_large m e :
  2 ^ 52 <= m -> 31 <= e -> 2 ^ 31 <= wholeGiBTenth m e.
Proof.
  intros Hm He. unfold wholeGiBTenth.
  replace (0 <=? e) with true by (symmetry; apply Z.leb_le; lia).
  assert (2 ^ 31 <= 2 ^ e) by (apply Z.pow_le_mono_r; lia).
  assert (2 ^ 52 * 2 ^ 31 <= m * 2 ^ e) by (apply Z.mul_le_mono_nonneg; lia).
  etrans; [|apply Z.div_le_mono; [|eassumption]]; [|lia].
  vm_compute. discriminate.
Qed.

(** From the double product on, the budget is the exactly truncated tenth. *)
Lemma cacheSizeGB_tenth_of_product pageSize numPages m e :
  dgt pageSize zero = true ->
  dgt numPages zero = true ->
  dmul numPages pageSize = S754_finite false m e ->
  2 ^ 52 <= Zpos m < 2 ^ 53 ->
  -1000 <= e ->
  wholeGiBTenth (Zpos m) e <= 2 ^ 31 - 1 ->
  cacheSizeGB pageSize numPages = Some (Z.max 1 (wholeGiBTenth (Zpos m) e)).
Proof.
  intros Hp Hn Hmul Hm Hlo Hint.
  assert (He : e <= 30).
  { destruct (Z.le_gt_cases e 30); [done|].
    pose proof (wholeGiBTenth_large (Zpos m) e ltac:(lia) ltac:(lia)). lia. }
  unfold cacheSizeGB. rewrite Hp, Hn, Hmul. cbv beta iota zeta. simpl andb. cbv iota.
  destruct (ddiv_ten m e Hm ltac:(lia)) as (M & E & -> & HM & Hround).
  rewrite ddiv_gib by (destruct Hround as [[-> _] | [-> _]]; lia).
  rewrite wholeGiBTenth_eq in * by lia.
  assert (HS : 0 < 2 ^ (31 - e)) by (apply Z.pow_pos_nonneg; lia).
  set (S8 := 2 ^ (31 - e)) in *.
  assert (Hcast : Z.shiftl (Zpos M) (E - 30) = Zpos m / (5 * S8)).
  { destruct Hround as [[-> Hr] | [-> Hr]].
    - rewrite Z.shiftl_div_pow2 by lia.
      replace (- (e - 4 - 30)) with (34 - e) by lia.
      replace (2 ^ (34 - e)) with (8 * S8)
        by (subst S8; replace (34 - e) with (3 + (31 - e)) by lia;
            rewrite Z.pow_add_r by lia; reflexivity).
      pose proof (Z.div_mod (Zpos M) (8 * S8) ltac:(lia)) as Hdm.
      pose proof (Z.mod_pos_bound (Zpos M) (8 * S8) ltac:(lia)) as Hmb.
      set (K := Zpos M / (8 * S8)) in *.
      apply (Z.div_unique_pos _ _ _ (Zpos m - 5 * S8 * K)); lia.
    - rewrite Z.shiftl_div_pow2 by lia.
      replace (- (e - 3 - 30)) with (33 - e) by lia.
      replace (2 ^ (33 - e)) with (4 * S8)
        by (subst S8; replace (33 - e) with (2 + (31 - e)) by lia;
            rewrite Z.pow_add_r by lia; reflexivity).
      pose proof (Z.div_mod (Zpos M) (4 * S8) ltac:(lia)) as Hdm.
      pose proof (Z.mod_pos_bound (Zpos M) (4 * S8) ltac:(lia)) as Hmb.
      set (K := Zpos M / (4 * S8)) in *.
      apply (Z.div_unique_pos _ _ _ (Zpos m - 5 * S8 * K)); lia. }
  unfold static_cast_int, INT_MAX in *. cbv zeta. rewrite Hcast.
  assert (0 <= Zpos m / (5 * S8)) by (apply Z.div_pos; lia).
  replace (- 2 ^ 31 <=? Z.pos m / (5 * S8)) with true
    by (symmetry; apply Z.leb_le; lia).
  replace (Z.pos m / (5 * S8) <=? 2 ^ 31 - 1) with true
    by (symmetry; apply Z.leb_le; lia).
  simpl andb. cbv iota. f_equal.
  destruct (Z.ltb_spec (Z.pos m / (5 * S8)) 1); lia.
Qed.

(** A product with a power of two is exact. *)
Lemma digits2_pos_shift52 p :
  Zpos (digits2_pos (4503599627370496 * p)) = Zpos (digits2_pos p) + 52.
Proof.
  assert (H : forall q, digits2_pos (q~0) = Pos.succ (digits2_pos q))
    by reflexivity.
  rewrite Pos.mul_comm, !Pos.mul_xO_r, Pos.mul_1_r, !H, !Pos2Z.inj_succ. lia.
Qed.

Lemma shr_52_zeros p e :
  shr {| shr_m := Zpos (4503599627370496 * p); shr_r := false; shr_s := false |} e 52
  = ({| shr_m := Zpos p; shr_r := false; shr_s := false |}, e + 52).
Proof. unfold shr. f_equal. Qed.

Lemma dmul_power_of_two mn en ep :
  2 ^ 52 <= Zpos mn < 2 ^ 53 ->
  -1074 <= en + ep + 52 <= 971 ->
  dmul (S754_finite false mn en) (S754_finite false 4503599627370496 ep)
  = S754_finite false mn (en + ep + 52).
Proof.
  intros Hm He. unfold dmul, SFmul. rewrite Pos.mul_comm.
  unfold binary_round_aux, shr_fexp.
  change (Zdigits2 (Zpos (4503599627370496 * mn)))
    with (Zpos (digits2_pos (4503599627370496 * mn))).
  rewrite digits2_pos_shift52, (Zdigits2_range mn 53) by lia.
  replace (fexp 53 1024 (53 + 52 + (en + ep)) - (en + ep)) with 52
    by (unfold fexp, emin; lia).
  change (shr_record_of_loc (Z.pos (4503599627370496 * mn)) loc_Exact)
    with {| shr_m := Zpos (4503599627370496 * mn); shr_r := false; shr_s := false |}.
  rewrite shr_52_zeros. cbv beta iota zeta.
  change (round_nearest_even _ _) with (Zpos mn).
  change (Zdigits2 (Zpos mn)) with (Zpos (digits2_pos mn)).
  rewrite (Zdigits2_range mn 53) by lia.
  replace (fexp 53 1024 (53 + (en + ep + 52)) - (en + ep + 52)) with 0
    by (unfold fexp, emin; lia).
  change (shr_record_of_loc (Z.pos mn) loc_Exact)
    with {| shr_m := Zpos mn; shr_r := false; shr_s := false |}.
  unfold shr. cbv beta iota zeta. cbn [shr_m].
  change (1024 - 53) with 971.
  replace (en + ep + 52 <=? 971) with true by (symmetry; apply Z.leb_le; lia).
  reflexivity.
Qed.

Lemma wholeGiBTenth_shift52 m e :
  wholeGiBTenth (4503599627370496 * m) e = wholeGiBTenth m (e + 52).
Proof.
  unfold wholeGiBTenth.
  destruct (Z.leb_spec 0 e) as [He | He].
  - replace (0 <=? e + 52) with true by (symmetry; apply Z.leb_le; lia).
    f_equal. rewrite Z.pow_add_r by lia. change (2 ^ 52) with 4503599627370496. lia.
  - destruct (Z.leb_spec 0 (e + 52)) as [He' | He'].
    + replace (4503599627370496 * m) with (m * 2 ^ (e + 52) * 2 ^ (- e)).
      * apply Z.div_mul_cancel_r; [lia|].
        assert (0 < 2 ^ (- e)) by (apply Z.pow_pos_nonneg; lia). lia.
      * rewrite <- Z.mul_assoc, <- Z.pow_add_r by lia.
        replace (e + 52 + - e) with 52 by lia. change (2 ^ 52) with 4503599627370496. lia.
    + replace (- e) with (- (e + 52) + 52) by lia.
      rewrite Z.pow_add_r by lia. change (2 ^ 52) with 4503599627370496.
      replace (4503599627370496 * m) with (m * 4503599627370496) by lia.
      rewrite Z.mul_assoc.
      apply Z.div_mul_cancel_r; [|lia].
      assert (0 < 2 ^ (- (e + 52))) by (apply Z.pow_pos_nonneg; lia). lia.
Qed.

(** What the doubles leave to the constructor's integer code is
    [KVEngineMore.cacheSizeGB] on the two comparisons and the converted int. *)
Lemma cacheSizeGB_integer_code pageSize numPages castGB :
  static_cast_int (ddiv (ddiv (dmul numPages pageSize) ten) gib) = Some castGB ->
  cacheSizeGB pageSize numPages
  = Some (KVEngineMore.cacheSizeGB (dgt pageSize zero) (dgt numPages zero) castGB).
Proof.
  intros Hcast. unfold cacheSizeGB, KVEngineMore.cacheSizeGB. rewrite Hcast.
  by destruct (dgt pageSize zero && dgt numPages zero).
Qed.

(** The cache budget for three-byte pages and 6004808093095253 of them: both
    sizes are positive and their product, 18014424279285759 bytes, has 1677723
    whole GiB in its tenth; the constructor's doubles round the product up to
    18014424279285760 and arrive at 1677724. *)
Lemma cacheSizeGB_rounds_product_up :
  dgt (double_of_int 3) zero = true /\
  dgt (double_of_int 6004808093095253) zero = true /\
  cacheSizeGB (double_of_int 3) (double_of_int 6004808093095253)
  = Some 1677724 /\
  claimedBudget (double_of_int 3) (double_of_int 6004808093095253) = 1677723.
Proof. split_and!; vm_compute; reflexivity. Qed.

(** C7. The cache budget of the constructor. When pageSize or numPages is
    not positive it is 1. When both are positive and their double product
    [numPages * pageSize] is a normal double [m * 2 ^ e], it is the tenth of
    that rounded product in whole GiB, truncated, and 1 when that is less
    than 1, as long as it fits an int. The rounded product is the exact
    one when the page size is a power of two: the budget is then the tenth of
    pageSize * numPages in whole GiB, truncated, with the floor of 1. *)
Theorem cacheSizeGB_budget pageSize numPages :
  (dgt pageSize zero && dgt numPages zero = false ->
     cacheSizeGB pageSize numPages = Some 1) /\
  (forall m e,
     dgt pageSize zero && dgt numPages zero = true ->
     dmul numPages pageSize = S754_finite false m e ->
     2 ^ 52 <= Zpos m < 2 ^ 53 -> -1000 <= e ->
     wholeGiBTenth (Zpos m) e <= INT_MAX ->
     cacheSizeGB pageSize numPages
     = Some (Z.max 1 (wholeGiBTenth (Zpos m) e))) /\
  (forall ep mn en,
     pageSize = S754_finite false 4503599627370496 ep ->
     numPages = S754_finite false mn en ->
     2 ^ 52 <= Zpos mn < 2 ^ 53 -> -1000 <= en + ep + 52 ->
     claimedBudget pageSize numPages <= INT_MAX ->
     cacheSizeGB pageSize numPages = Some (claimedBudget pageSize numPages)).
Proof.
  split_and!.
  - intros Hnot. unfold cacheSizeGB. by rewrite Hnot.
  - intros m e [Hp Hn]%andb_true_iff. by apply cacheSizeGB_tenth_of_product.
  - intros ep mn en -> -> Hm Hlo Hint.
    unfold claimedBudget in *. rewrite wholeGiBTenth_shift52 in *.
    replace (ep + en + 52) with (en + ep + 52) in * by lia.
    assert (He : en + ep + 52 <= 30).
    { destruct (Z.le_gt_cases (en + ep + 52) 30); [done|].
      pose proof (wholeGiBTenth_large (Zpos mn) (en + ep + 52)
                    ltac:(lia) ltac:(lia)).
      unfold INT_MAX in Hint. lia. }
    apply cacheSizeGB_tenth_of_product;
      [done | done | | done | done | unfold INT_MAX in *; lia].
    apply dmul_power_of_two; lia.
Qed.

(** Pages of 4096 bytes, 26214400 of them (100 GiB): the budget is 10. *)
Lemma cacheSizeGB_budget_witness :
  cacheSizeGB (double_of_int 4096) (double_of_int 26214400) = Some 10.
Proof.
  refine (proj2 (proj2 (cacheSizeGB_budget (double_of_int 4096)
                                           (double_of_int 26214400)))
                (-40) 7036874417766400%positive (-28) _ _ _ _ _).
  - vm_compute; reflexivity.
  - vm_compute; reflexivity.
  - lia.
  - lia.
  - vm_compute. discriminate.
Defined.

End CacheBudgetFacts.
